(** * The replication-based backup api (backup/api.c)

    A shallow embedding of [backup_open_internal], [backup_parse_command],
    [backup_reindex] and the entry points next to them, followed by the
    properties of the handle life cycle and of the reindex loop.

    C objects are modelled as follows: [int], [time_t] and [int64_t] are
    [Z]; a [char *] is a [string]; a pointer that may be [NULL] is an
    [option]; the three enums are inductive types together with their
    integer values; the operating system (files, descriptors, advisory
    locks, the heap) is an explicit [world] that every call threads. *)

From Stdlib Require Import ZArith Lia List String Ascii.
From stdpp Require Import base gmap strings list.

Local Open Scope Z_scope.

(** ** Characters and C strings *)

Definition EOF : Z := -1.

(** A character as the [int] the stream functions return. *)
Definition chr (a : ascii) : Z := Z.of_N (N_of_ascii a).

Definition ascii_of_Z (c : Z) : ascii := ascii_of_N (Z.to_N c).

Definition NUL : ascii := Ascii.zero.
Definition LF : ascii := ascii_of_nat 10.
Definition CR : ascii := ascii_of_nat 13.

(** [buf_cstring]: the bytes of a buffer read as a C string, which stops
    at the first NUL. *)
Fixpoint buf_cstring (b : string) : string :=
  match b with
  | EmptyString => EmptyString
  | String a b' => if Ascii.eqb a NUL then EmptyString else String a (buf_cstring b')
  end.

(** [strcmp] of the C library, on strings without NUL: the difference of
    the first two bytes that differ, [0] when there is none. *)
Fixpoint strcmp (s1 s2 : string) : Z :=
  match s1, s2 with
  | EmptyString, EmptyString => 0
  | EmptyString, String b _ => - chr b
  | String a _, EmptyString => chr a
  | String a s1', String b s2' =>
      if Ascii.eqb a b then strcmp s1' s2' else chr a - chr b
  end.

(** Modelled from the spec: [ucase] of lib/util.c is not part of the
    sources at hand; the spec says that the command name is upper-cased.
    Every ASCII lower-case letter is replaced by its upper-case letter,
    every other byte is kept. *)
Definition toupper (a : ascii) : ascii :=
  let n := chr a in
  if (97 <=? n) && (n <=? 122) then ascii_of_Z (n - 32) else a.

Fixpoint ucase (s : string) : string :=
  match s with
  | EmptyString => EmptyString
  | String a s' => String (toupper a) (ucase s')
  end.

(** ** The enums of api.c, with their integer values *)

Inductive backup_lock_type := BACKUP_LOCK_SHARED | BACKUP_LOCK_EXCLUSIVE.
Inductive backup_data_mode := BACKUP_DATA_NORMAL | BACKUP_DATA_APPEND | BACKUP_DATA_CREATE.
Inductive backup_index_mode := BACKUP_INDEX_READ | BACKUP_INDEX_WRITE | BACKUP_INDEX_CREATE.

Definition lock_type_val (t : backup_lock_type) : Z :=
  match t with BACKUP_LOCK_SHARED => 0 | BACKUP_LOCK_EXCLUSIVE => 1 end.

Definition data_mode_val (m : backup_data_mode) : Z :=
  match m with BACKUP_DATA_NORMAL => 0 | BACKUP_DATA_APPEND => 1 | BACKUP_DATA_CREATE => 2 end.

Definition index_mode_val (m : backup_index_mode) : Z :=
  match m with BACKUP_INDEX_READ => 0 | BACKUP_INDEX_WRITE => 1 | BACKUP_INDEX_CREATE => 2 end.

#[global] Instance backup_lock_type_eq_dec : EqDecision backup_lock_type.
Proof. solve_decision. Defined.
#[global] Instance backup_data_mode_eq_dec : EqDecision backup_data_mode.
Proof. solve_decision. Defined.
#[global] Instance backup_index_mode_eq_dec : EqDecision backup_index_mode.
Proof. solve_decision. Defined.

(** The macros [backup_is_valid_lock_type] and its two siblings. *)
Definition backup_is_valid_lock_type (t : backup_lock_type) : bool :=
  lock_type_val t <=? lock_type_val BACKUP_LOCK_EXCLUSIVE.
Definition backup_is_valid_data_mode (m : backup_data_mode) : bool :=
  data_mode_val m <=? data_mode_val BACKUP_DATA_CREATE.
Definition backup_is_valid_index_mode (m : backup_index_mode) : bool :=
  index_mode_val m <=? index_mode_val BACKUP_INDEX_CREATE.

(** ** Payloads *)

(** Modelled from the spec: [struct dlist] of imap/dlist.h is not part of
    the sources at hand.  The spec describes a payload as an ordered,
    possibly nested structured list that carries a command name: an item
    is a named atom or a named list of items. *)
#[warnings="-register-all"]
Inductive dlist :=
| DAtom (name : string) (sval : string)
| DList (name : string) (items : list dlist).

Definition dl_name (dl : dlist) : string :=
  match dl with DAtom n _ => n | DList n _ => n end.

Definition dl_set_name (n : string) (dl : dlist) : dlist :=
  match dl with DAtom _ v => DAtom n v | DList _ l => DList n l end.

(** [time_t] and [int64_t] are 64-bit signed integers; [(time_t) t] is
    the conversion between them, written with its wrap-around. *)
Definition time_t := Z.
Definition int64_t := Z.

Definition cast_time_t (t : Z) : time_t :=
  (t + 2 ^ 63) mod 2 ^ 64 - 2 ^ 63.

(** ** The index store (lib/sqldb.h) *)

(** One entry of the upgrade table: the schema version it leads to and
    the statement that gets there. *)
Record sqldb_upgrade := { upgrade_to : Z; upgrade_sql : string }.

(** An open connection: the file it is on, the schema version it found or
    created, and the upgrade steps it ran when it was opened. *)
Record sqldb_t := {
  db_fname : string;
  db_version : Z;
  db_upgraded : list sqldb_upgrade
}.

(** The constants of backup/sqlconsts.h, which is not part of the sources
    at hand: they are parameters of the development. *)
Class SqlConsts := {
  backup_index_initsql : string;
  backup_index_version : Z;
  backup_index_upgrade : list sqldb_upgrade
}.

(** ** The operating system *)

Section World.

(** [P] is the type of a [struct protstream]: the state of a stream of
    bytes that is being read. *)
Context {P : Type}.

(** What a path can name: a log (the members of the file, each given as
    the stream that [prot_readcb] yields over its bytes), an index (the
    schema version stored in it), or a directory, which is empty or not. *)
Inductive file :=
| GzFile (members : list P)
| SqlFile (stored_version : Z)
| Directory (empty : bool).

(** The files, and what this process holds: open descriptors with the
    path each was opened on, advisory locks by descriptor, open index
    connections, live heap blocks (each named after its content), [errno].
    [w_contention] is what the other processes hold on the log at the
    successive instants at which a lock is requested (free for ever after
    the last one), [w_waited] counts the instants this process spent blocked,
    [w_enolck] says that the kernel cannot allocate a lock record,
    [w_store_plain] is what the index store makes of a schema that is
    older than the current version when it is handed no upgrade table (an
    error, or the version it leaves in the file), which its contract does
    not say, and [w_index_calls] logs the calls of [backup_index_dlist]. *)
Record world := {
  w_files : gmap string file;
  w_fds : gmap Z string;
  w_locks : gmap Z backup_lock_type;
  w_contention : list (option backup_lock_type);
  w_waited : nat;
  w_enolck : bool;
  w_store_plain : Z -> Z -> option Z;
  w_dbs : list sqldb_t;
  w_heap : list string;
  w_errno : Z;
  w_index_calls : list (time_t * dlist)
}.

Definition upd_files (f : gmap string file -> gmap string file) (w : world) : world :=
  {| w_files := f (w_files w); w_fds := w_fds w; w_locks := w_locks w;
     w_contention := w_contention w; w_waited := w_waited w; w_enolck := w_enolck w;
     w_store_plain := w_store_plain w;
     w_dbs := w_dbs w; w_heap := w_heap w; w_errno := w_errno w;
     w_index_calls := w_index_calls w |}.

Definition upd_fds (f : gmap Z string -> gmap Z string) (w : world) : world :=
  {| w_files := w_files w; w_fds := f (w_fds w); w_locks := w_locks w;
     w_contention := w_contention w; w_waited := w_waited w; w_enolck := w_enolck w;
     w_store_plain := w_store_plain w;
     w_dbs := w_dbs w; w_heap := w_heap w; w_errno := w_errno w;
     w_index_calls := w_index_calls w |}.

Definition upd_locks (f : gmap Z backup_lock_type -> gmap Z backup_lock_type) (w : world) : world :=
  {| w_files := w_files w; w_fds := w_fds w; w_locks := f (w_locks w);
     w_contention := w_contention w; w_waited := w_waited w; w_enolck := w_enolck w;
     w_store_plain := w_store_plain w;
     w_dbs := w_dbs w; w_heap := w_heap w; w_errno := w_errno w;
     w_index_calls := w_index_calls w |}.

Definition set_contention (c : list (option backup_lock_type)) (n : nat) (w : world) : world :=
  {| w_files := w_files w; w_fds := w_fds w; w_locks := w_locks w;
     w_contention := c; w_waited := n; w_enolck := w_enolck w;
     w_store_plain := w_store_plain w;
     w_dbs := w_dbs w; w_heap := w_heap w; w_errno := w_errno w;
     w_index_calls := w_index_calls w |}.

Definition upd_dbs (f : list sqldb_t -> list sqldb_t) (w : world) : world :=
  {| w_files := w_files w; w_fds := w_fds w; w_locks := w_locks w;
     w_contention := w_contention w; w_waited := w_waited w; w_enolck := w_enolck w;
     w_store_plain := w_store_plain w;
     w_dbs := f (w_dbs w); w_heap := w_heap w; w_errno := w_errno w;
     w_index_calls := w_index_calls w |}.

Definition upd_heap (f : list string -> list string) (w : world) : world :=
  {| w_files := w_files w; w_fds := w_fds w; w_locks := w_locks w;
     w_contention := w_contention w; w_waited := w_waited w; w_enolck := w_enolck w;
     w_store_plain := w_store_plain w;
     w_dbs := w_dbs w; w_heap := f (w_heap w); w_errno := w_errno w;
     w_index_calls := w_index_calls w |}.

Definition set_errno (e : Z) (w : world) : world :=
  {| w_files := w_files w; w_fds := w_fds w; w_locks := w_locks w;
     w_contention := w_contention w; w_waited := w_waited w; w_enolck := w_enolck w;
     w_store_plain := w_store_plain w;
     w_dbs := w_dbs w; w_heap := w_heap w; w_errno := e;
     w_index_calls := w_index_calls w |}.

Definition log_index_call (ts : time_t) (dl : dlist) (w : world) : world :=
  {| w_files := w_files w; w_fds := w_fds w; w_locks := w_locks w;
     w_contention := w_contention w; w_waited := w_waited w; w_enolck := w_enolck w;
     w_store_plain := w_store_plain w;
     w_dbs := w_dbs w; w_heap := w_heap w; w_errno := w_errno w;
     w_index_calls := w_index_calls w ++ [(ts, dl)] |}.

(** *** Files and descriptors: open(2), close(2), rename(2) *)

(** The system calls of the C library, as far as the code depends on them.
    The flags and the error numbers have their Linux values.  [sys_open]
    fails on a missing file unless it is to create it, on an existing one
    when it is to create it exclusively, and on a directory; it returns
    the lowest free descriptor.  [sys_rename] fails on a missing file, on
    a file that is to replace a directory, on a directory that is to
    replace a file, and on a directory that is to replace one that is not
    empty.  A failing call returns [-1] and sets [errno].  [sys_close]
    gives the descriptor back, and with it the advisory lock that the
    process holds through it. *)
Definition O_RDWR : Z := 2.
Definition O_CREAT : Z := 64.
Definition O_EXCL : Z := 128.
Definition O_APPEND : Z := 1024.

Definition ENOENT : Z := 2.
Definition EAGAIN : Z := 11.
Definition EEXIST : Z := 17.
Definition ENOTDIR : Z := 20.
Definition EISDIR : Z := 21.
Definition ENOLCK : Z := 37.
Definition ENOTEMPTY : Z := 39.

Definition has_flag (flags f : Z) : bool := negb (Z.land flags f =? 0).

(** The lowest descriptor that is not open, searched from [k] on. *)
Fixpoint lowest_free (fds : gmap Z string) (n : nat) (k : Z) : Z :=
  match n with
  | O => k
  | S n' => match fds !! k with
            | None => k
            | Some _ => lowest_free fds n' (k + 1)
            end
  end.

Definition new_fd (path : string) (w : world) : Z * world :=
  let fd := lowest_free (w_fds w) (size (w_fds w)) 0 in
  (fd, upd_fds (insert fd path) w).

Definition sys_open (path : string) (flags : Z) (w : world) : Z * world :=
  match w_files w !! path with
  | Some f =>
      if has_flag flags O_CREAT && has_flag flags O_EXCL then (-1, set_errno EEXIST w)
      else match f with
           | Directory _ => (-1, set_errno EISDIR w)
           | _ => new_fd path w
           end
  | None =>
      if has_flag flags O_CREAT then new_fd path (upd_files (insert path (GzFile [])) w)
      else (-1, set_errno ENOENT w)
  end.

Definition sys_close (fd : Z) (w : world) : world :=
  upd_fds (delete fd) (upd_locks (delete fd) w).

(** The error of [rename] for a file that exists, by what it is and by
    what its new name stands for; [None] when the file can be moved. *)
Definition is_dir (f : file) : bool :=
  match f with
  | Directory _ => true
  | _ => false
  end.

Definition rename_error (f : file) (target : option file) : option Z :=
  match target with
  | None => None
  | Some (Directory empty) =>
      if is_dir f then (if empty then None else Some ENOTEMPTY) else Some EISDIR
  | Some _ => if is_dir f then Some ENOTDIR else None
  end.

Definition sys_rename (old new : string) (w : world) : Z * world :=
  match w_files w !! old with
  | None => (-1, set_errno ENOENT w)
  | Some f =>
      match rename_error f (w_files w !! new) with
      | Some e => (-1, set_errno e w)
      | None => (0, upd_files (fun m => insert new f (delete old m)) w)
      end
  end.

(** *** The heap: xzmalloc, strdup, strconcat and free *)

(** An allocation adds a block, named after its content, to the live
    blocks; [free] takes one block of that name away.  The allocators of
    lib/xmalloc.h do not return [NULL]. *)

Definition alloc (block : string) (w : world) : world := upd_heap (cons block) w.

Fixpoint remove_first (block : string) (l : list string) : list string :=
  match l with
  | [] => []
  | b :: l' => if String.eqb b block then l' else b :: remove_first block l'
  end.

Definition free (block : string) (w : world) : world := upd_heap (remove_first block) w.

(** *** The advisory lock (lib/cyr_lock.h) *)

(** Modelled from the spec: [lock_setlock] and [lock_unlock] are declared
    in lib/cyr_lock.h, which is not part of the sources at hand.  The spec
    describes a whole-file advisory lock: SHARED allows any number of
    holders and no EXCLUSIVE one, EXCLUSIVE allows one holder and
    nobody else; a non-blocking request that cannot be granted fails at
    once, a blocking one waits until it can be granted.  The holders of
    [w_contention] let go after finitely many instants: a wait that never
    ends is outside the model, and nothing below concludes from the model
    alone that a blocked request returns.  The lock goes with
    [lock_unlock] or with the [close] of its descriptor. *)
Definition lock_compatible (exclusive : bool) (held : option backup_lock_type) : bool :=
  match held with
  | None => true
  | Some BACKUP_LOCK_SHARED => negb exclusive
  | Some BACKUP_LOCK_EXCLUSIVE => false
  end.

(** The instants a blocking request sits out. *)
Fixpoint lock_blocked (exclusive : bool) (sched : list (option backup_lock_type)) : nat :=
  match sched with
  | [] => O
  | held :: sched' =>
      if lock_compatible exclusive held then O else S (lock_blocked exclusive sched')
  end.

Definition lock_grant (fd : Z) (exclusive : bool) (blocked : nat) (w : world) : Z * world :=
  let t := if exclusive then BACKUP_LOCK_EXCLUSIVE else BACKUP_LOCK_SHARED in
  (0, upd_locks (insert fd t)
        (set_contention (drop blocked (w_contention w)) (w_waited w + blocked)%nat w)).

Definition lock_setlock (fd : Z) (exclusive : bool) (nonblock : Z)
    (filename : option string) (w : world) : Z * world :=
  if w_enolck w then (-1, set_errno ENOLCK w)
  else
    let blocked := lock_blocked exclusive (w_contention w) in
    if nonblock =? 0 then lock_grant fd exclusive blocked w
    else match blocked with
         | O => lock_grant fd exclusive O w
         | S _ => (-1, set_errno EAGAIN w)
         end.

Definition lock_unlock (fd : Z) (filename : option string) (w : world) : world :=
  upd_locks (delete fd) w.

(** *** The index store (lib/sqldb.h) *)

(** Modelled from the spec: [sqldb_open] and [sqldb_close] are declared in
    lib/sqldb.h, which is not part of the sources at hand.  The spec gives
    the contract open(path, initSchema, currentVersion,
    orderedUpgradeSteps): an existing schema whose stored version is older
    than the current one gets the upgrade steps it was handed, in their
    order; a stored version newer than the current one is an open error;
    a missing file is initialised with the init schema.  Without an init
    schema a missing file cannot be opened, and what is not an index
    cannot be opened either.  The contract does not say what becomes of
    an older schema when no upgrade table is handed over: that is left to
    [w_store_plain]. *)
Definition run_upgrades (stored : Z) (upgradesql : option (list sqldb_upgrade))
  : list sqldb_upgrade :=
  match upgradesql with
  | None => []
  | Some steps => List.filter (fun u => stored <? upgrade_to u) steps
  end.

Definition sqldb_open (fname : string) (initsql : option string) (version : Z)
    (upgradesql : option (list sqldb_upgrade)) (w : world) : option sqldb_t * world :=
  match w_files w !! fname with
  | None =>
      match initsql with
      | None => (None, w)
      | Some _ =>
          let d := {| db_fname := fname; db_version := version; db_upgraded := [] |} in
          (Some d, upd_dbs (cons d) (upd_files (insert fname (SqlFile version)) w))
      end
  | Some (SqlFile stored) =>
      if version <? stored then (None, w)
      else
        let left :=
          match upgradesql with
          | Some _ => Some version
          | None => if stored =? version then Some stored
                    else w_store_plain w stored version
          end in
        match left with
        | None => (None, w)
        | Some v =>
            let d := {| db_fname := fname; db_version := v;
                        db_upgraded := run_upgrades stored upgradesql |} in
            (Some d, upd_dbs (cons d) (upd_files (insert fname (SqlFile v)) w))
        end
  | Some _ => (None, w)
  end.

Definition sqldb_close (d : sqldb_t) (w : world) : world :=
  upd_dbs (List.filter (fun d' => negb (String.eqb (db_fname d') (db_fname d)))) w.

(** A world without files, in which this process holds nothing. *)
Definition empty_world : world :=
  {| w_files := ∅; w_fds := ∅; w_locks := ∅; w_contention := []; w_waited := O;
     w_enolck := false; w_store_plain := fun stored _ => Some stored;
     w_dbs := []; w_heap := []; w_errno := 0; w_index_calls := [] |}.

End World.

Arguments file : clear implicits.
Arguments world : clear implicits.

(** ** The collaborators of the reindexer *)

(** The record codec: lib/prot.h and imap/imapparse.h ([prot_getc],
    [prot_ungetc], [eatline], [getint64], [getword]) and imap/dlist.h
    ([dlist_parse]) are not part of the sources at hand; they are the
    interface that [backup_parse_command] is written against.  Every
    function returns the stream it leaves behind.  [getint64] and
    [getword] return the character that follows what they read (or [EOF]),
    [dlist_parse] returns that character and the list, [None] for a list
    that did not parse. *)
Class RecordCodec (P : Type) := {
  prot_getc : P -> Z * P;
  prot_ungetc : Z -> P -> P;
  eatline : P -> Z -> P;
  getint64 : P -> Z * int64_t * P;
  getword : P -> Z * string * P;
  dlist_parse : Z -> P -> Z * option dlist * P
}.

(** The two flags of imap/dlist.h handed to [dlist_parse]: two distinct
    bits. *)
Definition DLIST_SFILE : Z := 1.
Definition DLIST_PARSEKEY : Z := 2.

Section Api.

Context {P : Type} `{RecordCodec P} `{SqlConsts}.

(** Modelled from the spec: backup/gzuncat.h is not part of the sources at
    hand.  The spec describes the segment stream as sequential access to
    a log that is a concatenation of independently compressed chunks, with
    an end-of-stream test, begin-chunk and end-chunk.  A [struct gzuncat]
    is the list of the members that are still to come; [gzuc_open] is
    [NULL] on a descriptor that is not open on a log. *)
Definition gzuncat := list P.

Definition gzuc_open (fd : Z) (w : world P) : option gzuncat :=
  match w_fds w !! fd with
  | None => None
  | Some path =>
      match w_files w !! path with
      | Some (GzFile members) => Some members
      | _ => None
      end
  end.

(** ** struct backup *)

Record backup := {
  backup_fd : Z;
  backup_name : option string;
  backup_gzname : option string;
  backup_idxname : option string;
  backup_oldidxname : option string;
  backup_gzuc : option gzuncat;
  backup_db : option sqldb_t;
  backup_lock : backup_lock_type;
  backup_data : backup_data_mode;
  backup_index : backup_index_mode
}.

(** What [xzmalloc] returns: every byte is zero. *)
Definition backup_zero : backup :=
  {| backup_fd := 0; backup_name := None; backup_gzname := None;
     backup_idxname := None; backup_oldidxname := None; backup_gzuc := None;
     backup_db := None; backup_lock := BACKUP_LOCK_SHARED;
     backup_data := BACKUP_DATA_NORMAL; backup_index := BACKUP_INDEX_READ |}.

Definition set_fd (v : Z) (b : backup) : backup :=
  {| backup_fd := v; backup_name := backup_name b; backup_gzname := backup_gzname b;
     backup_idxname := backup_idxname b; backup_oldidxname := backup_oldidxname b;
     backup_gzuc := backup_gzuc b; backup_db := backup_db b; backup_lock := backup_lock b;
     backup_data := backup_data b; backup_index := backup_index b |}.

Definition set_names (n gz idx : string) (b : backup) : backup :=
  {| backup_fd := backup_fd b; backup_name := Some n; backup_gzname := Some gz;
     backup_idxname := Some idx; backup_oldidxname := backup_oldidxname b;
     backup_gzuc := backup_gzuc b; backup_db := backup_db b; backup_lock := backup_lock b;
     backup_data := backup_data b; backup_index := backup_index b |}.

Definition set_oldidxname (old : string) (b : backup) : backup :=
  {| backup_fd := backup_fd b; backup_name := backup_name b; backup_gzname := backup_gzname b;
     backup_idxname := backup_idxname b; backup_oldidxname := Some old;
     backup_gzuc := backup_gzuc b; backup_db := backup_db b; backup_lock := backup_lock b;
     backup_data := backup_data b; backup_index := backup_index b |}.

Definition set_db (d : sqldb_t) (b : backup) : backup :=
  {| backup_fd := backup_fd b; backup_name := backup_name b; backup_gzname := backup_gzname b;
     backup_idxname := backup_idxname b; backup_oldidxname := backup_oldidxname b;
     backup_gzuc := backup_gzuc b; backup_db := Some d; backup_lock := backup_lock b;
     backup_data := backup_data b; backup_index := backup_index b |}.

Definition set_lock (t : backup_lock_type) (b : backup) : backup :=
  {| backup_fd := backup_fd b; backup_name := backup_name b; backup_gzname := backup_gzname b;
     backup_idxname := backup_idxname b; backup_oldidxname := backup_oldidxname b;
     backup_gzuc := backup_gzuc b; backup_db := backup_db b; backup_lock := t;
     backup_data := backup_data b; backup_index := backup_index b |}.

Definition set_data (m : backup_data_mode) (b : backup) : backup :=
  {| backup_fd := backup_fd b; backup_name := backup_name b; backup_gzname := backup_gzname b;
     backup_idxname := backup_idxname b; backup_oldidxname := backup_oldidxname b;
     backup_gzuc := backup_gzuc b; backup_db := backup_db b; backup_lock := backup_lock b;
     backup_data := m; backup_index := backup_index b |}.

Definition set_index (m : backup_index_mode) (b : backup) : backup :=
  {| backup_fd := backup_fd b; backup_name := backup_name b; backup_gzname := backup_gzname b;
     backup_idxname := backup_idxname b; backup_oldidxname := backup_oldidxname b;
     backup_gzuc := backup_gzuc b; backup_db := backup_db b; backup_lock := backup_lock b;
     backup_data := backup_data b; backup_index := m |}.

(** The heap block of the structure itself. *)
Definition struct_backup : string := "struct backup".

(** ** backup_open_internal *)

(** The code at the label [error]: what was acquired is given back and
    [r] is returned; [*backupp] is not written. *)
Definition backup_open_error (b : backup) (r : Z) (w : world P)
  : Z * option backup * world P :=
  let w := if negb (lock_type_val (backup_lock b) =? 0)
           then lock_unlock (backup_fd b) (backup_gzname b) w else w in
  let w := if backup_fd b >=? 0 then sys_close (backup_fd b) w else w in
  let w := match backup_name b with Some s => free s w | None => w end in
  let w := match backup_gzname b with Some s => free s w | None => w end in
  let w := match backup_idxname b with Some s => free s w | None => w end in
  let w := match backup_oldidxname b with Some s => free s w | None => w end in
  let w := match backup_db b with Some d => sqldb_close d w | None => w end in
  let w := free struct_backup w in
  (r, None, w).

(** The last step of the function: [sqldb_open] and the return. *)
Definition backup_open_index (b : backup) (idxname : string)
    (initsql : option string) (upgradesql : option (list sqldb_upgrade))
    (index_mode : backup_index_mode) (w : world P) : Z * option backup * world P :=
  let '(db, w) := sqldb_open idxname initsql backup_index_version upgradesql w in
  match db with
  | None => backup_open_error b (-1) w
  | Some d =>
      let b := set_db d b in
      let b := set_index index_mode b in
      (0, Some b, w)
  end.

(** The result is the returned [int], what was stored in [*backupp]
    ([None] when it was not written), and the world. *)
Definition backup_open_internal (name : string) (lock_type : backup_lock_type)
    (data_mode : backup_data_mode) (index_mode : backup_index_mode) (w : world P)
  : Z * option backup * world P :=
  let w := alloc struct_backup w in
  let b := set_fd (-1) backup_zero in
  let gzname := name +:+ ".gz" in
  let idxname := name +:+ ".index" in
  let w := alloc idxname (alloc gzname (alloc name w)) in
  let b := set_names name gzname idxname b in
  let '(openflags, lock_type) :=
    match data_mode with
    | BACKUP_DATA_NORMAL => (O_RDWR, lock_type)
    | BACKUP_DATA_APPEND => (Z.lor O_RDWR O_APPEND, BACKUP_LOCK_EXCLUSIVE)
    | BACKUP_DATA_CREATE => (Z.lor (Z.lor O_RDWR O_CREAT) O_EXCL, BACKUP_LOCK_EXCLUSIVE)
    end in
  let '(fd, w) := sys_open gzname openflags w in
  let b := set_fd fd b in
  if fd <? 0 then backup_open_error b (w_errno w) w
  else
    let b := set_data data_mode b in
    let '(r, w) := lock_setlock fd (bool_decide (lock_type = BACKUP_LOCK_EXCLUSIVE))
                     0 (Some gzname) w in
    if negb (r =? 0) then backup_open_error b r w
    else
      let b := set_lock lock_type b in
      match index_mode with
      | BACKUP_INDEX_READ => backup_open_index b idxname None None index_mode w
      | BACKUP_INDEX_WRITE =>
          backup_open_index b idxname (Some backup_index_initsql)
            (Some backup_index_upgrade) index_mode w
      | BACKUP_INDEX_CREATE =>
          let oldidxname := idxname +:+ ".old" in
          let w := alloc oldidxname w in
          let '(r, w) := sys_rename idxname oldidxname w in
          if negb (r =? 0) && negb (w_errno w =? ENOENT)
          then backup_open_error b (w_errno w) (free oldidxname w)
          else
            let b := set_oldidxname oldidxname b in
            backup_open_index b idxname (Some backup_index_initsql)
              (Some backup_index_upgrade) index_mode w
      end.

(** ** The entry points that are stubs *)

Definition backup_create (name : string) (w : world P) : Z * option backup * world P :=
  (-1, None, w).

(** [backupp] is the handle [*backupp] before the call; the result is the
    returned [int], [*backupp] after the call and the world. *)
Definition backup_close (backupp : option backup) (w : world P)
  : Z * option backup * world P :=
  (-1, backupp, w).

Definition backup_write_dlist (b : backup) (ts : time_t) (dl : dlist) (w : world P)
  : Z * world P :=
  (-1, w).

(** The function only returns [-1]; the model logs the call, so that what
    was submitted to the index can be told. *)
Definition backup_index_dlist (b : backup) (ts : time_t) (dl : dlist) (w : world P)
  : Z * world P :=
  (-1, log_index_call ts dl w).

(** ** backup_parse_command *)

(** What the function stores through [ts], [cmd] and [kin] when it
    succeeds. *)
Record command := { cmd_ts : time_t; cmd_buf : string; cmd_dl : dlist }.

(** The result is the returned character, the stores (only on the path
    that does not go through [fail]) and the stream.  The two messages
    on stderr are left out. *)
Definition backup_parse_command (i : P) : Z * option command * P :=
  let '(c, i) := prot_getc i in
  let i := if c =? chr "#" then eatline i c else prot_ungetc c i in
  let '(c, t, i) := getint64 i in
  if c =? EOF then (c, None, i)
  else
    let '(c, buf, i) := getword i in
    if c =? EOF then (c, None, i)
    else
      let '(c, dl, i) := dlist_parse (Z.lor DLIST_SFILE DLIST_PARSEKEY) i in
      match dl with
      | None => (c, None, i)
      | Some dl =>
          let '(c, i) := if c =? chr CR then prot_getc i else (c, i) in
          if negb (c =? chr LF) then (c, None, eatline i c)
          else (c, Some {| cmd_ts := cast_time_t t; cmd_buf := buf; cmd_dl := dl |}, i)
      end.

(** ** backup_reindex *)

(** The local [ts] of the inner loop is declared without a value, and
    [backup_parse_command] stores into it only when it succeeds.  When
    the function fails with a character other than [EOF] the loop reads
    [ts] all the same: the value it then finds is not determined by the
    program, and is a parameter of the model. *)
Variable indeterminate_ts : P -> time_t.

(** One turn of the [while (1)] loop: the loop is left ([break]), the
    process exits ([fatal]), [ucase] is handed the name of a [NULL] list,
    or the loop goes on with a new [member_ts], [r], stream and world. *)
Inductive iteration :=
| IterBreak (member : P)
| IterFatal (msg : string)
| IterCrash
| IterNext (member_ts : time_t) (r : Z) (member : P) (w : world P).

Definition reindex_iteration (b : backup) (member_ts : time_t) (r : Z)
    (member : P) (w : world P) : iteration :=
  let '(c, out, member) := backup_parse_command member in
  if c =? EOF then IterBreak member
  else
    let ts := match out with Some o => cmd_ts o | None => indeterminate_ts member end in
    let cmd := match out with Some o => cmd_buf o | None => EmptyString end in
    let dl := match out with Some o => Some (cmd_dl o) | None => None end in
    let checked :=
      if member_ts =? -1 then Some ts
      else if member_ts >? ts then None
      else Some member_ts in
    match checked with
    | None => IterFatal "timestamp older than previous"
    | Some member_ts =>
        if negb (strcmp (buf_cstring cmd) "APPLY" =? 0) then IterNext member_ts r member w
        else
          match dl with
          | None => IterCrash
          | Some dl =>
              let dl := dl_set_name (ucase (dl_name dl)) dl in
              let '(r, w) := backup_index_dlist b ts dl w in
              IterNext member_ts r member w
          end
    end.

(** How the loops end: normally, with the last [r] and the world, or by
    the exit of the process. *)
Inductive loop_result :=
| LoopEnd (r : Z) (w : world P)
| LoopFatal (msg : string) (w : world P)
| LoopCrash (w : world P).

(** The inner loop over one member; [None] when [fuel] turns have not
    reached its end. *)
Fixpoint reindex_member (fuel : nat) (b : backup) (member_ts : time_t) (r : Z)
    (member : P) (w : world P) : option loop_result :=
  match fuel with
  | O => None
  | S fuel' =>
      match reindex_iteration b member_ts r member w with
      | IterBreak _ => Some (LoopEnd r w)
      | IterFatal msg => Some (LoopFatal msg w)
      | IterCrash => Some (LoopCrash w)
      | IterNext member_ts' r' member' w' => reindex_member fuel' b member_ts' r' member' w'
      end
  end.

(** The outer loop over the members: each one starts with
    [member_ts = -1]. *)
Fixpoint reindex_members (fuel : nat) (b : backup) (gzuc : gzuncat) (r : Z)
    (w : world P) : option loop_result :=
  match gzuc with
  | [] => Some (LoopEnd r w)
  | member :: gzuc' =>
      match reindex_member fuel b (-1) r member w with
      | Some (LoopEnd r' w') => reindex_members fuel b gzuc' r' w'
      | other => other
      end
  end.

(** What becomes of the process that called [backup_reindex]. *)
Inductive reindex_result :=
| Returned (r : Z)
| Fatal (msg : string)
| Crashed.

Definition backup_reindex (fuel : nat) (name : string) (w : world P)
  : option (reindex_result * world P) :=
  let '(r, backupp, w) :=
    backup_open_internal name BACKUP_LOCK_EXCLUSIVE BACKUP_DATA_NORMAL BACKUP_INDEX_CREATE w in
  if negb (r =? 0) then Some (Returned r, w)
  else
    match backupp with
    | None => Some (Crashed, w)
    | Some b =>
        let looped :=
          match gzuc_open (backup_fd b) w with
          | Some gzuc => reindex_members fuel b gzuc r w
          | None => Some (LoopEnd r w)
          end in
        match looped with
        | None => None
        | Some (LoopFatal msg w) => Some (Fatal msg, w)
        | Some (LoopCrash w) => Some (Crashed, w)
        | Some (LoopEnd r w) =>
            let '(_, _, w) := backup_close (Some b) w in
            Some (Returned r, w)
        end
    end.

End Api.

(** ** A codec over the bytes of a member *)

(** Modelled from the spec: the record codec is not part of the sources
    at hand (see [RecordCodec]).  The spec gives the framing of a record
    inside a member: an optional comment line that starts with [#], then
    the seconds as a decimal integer, a space, the verb, a space, the
    payload and the end of the line (LF, or CR and LF); the payload
    delimits itself and its first element is treated as a key.  Here a
    stream is the string of the bytes that are still to be read, and a
    payload is a key followed by an atom or by a parenthesised list of
    items (atoms or lists again, without key).  The codec serves to run
    the functions above on the bytes of a log. *)
Module Bytes.

Definition getc (s : string) : Z * string :=
  match s with
  | EmptyString => (EOF, EmptyString)
  | String a s' => (chr a, s')
  end.

Definition ungetc (c : Z) (s : string) : string :=
  if c =? EOF then s else String (ascii_of_Z c) s.

Fixpoint skip_line (s : string) : string :=
  match s with
  | EmptyString => EmptyString
  | String a s' => if Ascii.eqb a LF then s' else skip_line s'
  end.

Definition eatline (s : string) (c : Z) : string :=
  if (c =? chr LF) || (c =? EOF) then s else skip_line s.

Definition is_digit (c : Z) : bool := (48 <=? c) && (c <=? 57).

Definition is_space (c : Z) : bool := (c =? 32) || ((9 <=? c) && (c <=? 13)).

(** The characters that end a word: white space, parentheses and the
    double quote. *)
Definition ends_word (c : Z) : bool :=
  is_space c || (c =? 40) || (c =? 41) || (c =? 34).

Fixpoint read_digits (s : string) (acc : Z) (got : bool) : Z * Z * bool * string :=
  match s with
  | EmptyString => (EOF, acc, got, EmptyString)
  | String a s' =>
      if is_digit (chr a) then read_digits s' (acc * 10 + (chr a - 48)) true
      else (chr a, acc, got, s')
  end.

(** The spec has the seconds signed: a minus sign may come first. *)
Definition getint64 (s : string) : Z * int64_t * string :=
  match s with
  | String "-" s' =>
      let '(c, n, got, rest) := read_digits s' 0 false in
      if got then (c, - n, rest) else (EOF, 0, s)
  | _ =>
      let '(c, n, got, rest) := read_digits s 0 false in
      if got then (c, n, rest) else (EOF, 0, ungetc c rest)
  end.

Fixpoint getword (s : string) : Z * string * string :=
  match s with
  | EmptyString => (EOF, EmptyString, EmptyString)
  | String a s' =>
      if ends_word (chr a) then (chr a, EmptyString, s')
      else let '(c, w, rest) := getword s' in (c, String a w, rest)
  end.

Fixpoint next_nonspace (s : string) (c : Z) : Z * string :=
  if is_space c then
    match s with
    | EmptyString => (EOF, EmptyString)
    | String a s' => next_nonspace s' (chr a)
    end
  else (c, s).

Fixpoint parse (fuel : nat) (parsekey : bool) (s : string) : Z * option dlist * string :=
  match fuel with
  | O => (EOF, None, s)
  | S fuel' =>
      let '(c, key, s) :=
        if parsekey then
          let '(c, k, s) := getword s in
          let '(c, s) := next_nonspace s c in (c, k, s)
        else
          let '(c, s) := getc s in (c, EmptyString, s) in
      if c =? EOF then (EOF, None, s)
      else if c =? 40 then
        let '(c, s) := next_nonspace s 32 in
        match items fuel' c s with
        | None => (EOF, None, s)
        | Some (l, s) => let '(c, s) := getc s in (c, Some (DList key l), s)
        end
      else
        let '(c, v, s) := getword (ungetc c s) in (c, Some (DAtom key v), s)
  end
with items (fuel : nat) (c : Z) (s : string) : option (list dlist * string) :=
  match fuel with
  | O => None
  | S fuel' =>
      if c =? 41 then Some ([], s)
      else
        let '(c, di, s) := parse fuel' false (ungetc c s) in
        let '(c, s) := next_nonspace s c in
        if c =? EOF then None
        else
          match items fuel' c s with
          | None => None
          | Some (l, s) => Some (match di with Some d => d :: l | None => l end, s)
          end
  end.

Definition dlist_parse (flags : Z) (s : string) : Z * option dlist * string :=
  parse (2 * String.length s + 2) (negb (Z.land flags DLIST_PARSEKEY =? 0)) s.

#[export] Instance codec : RecordCodec string := {
  prot_getc := getc;
  prot_ungetc := ungetc;
  eatline := eatline;
  getint64 := getint64;
  getword := getword;
  dlist_parse := dlist_parse
}.

(** The end of a line, and a line. *)
Definition eol : string := String LF EmptyString.
Definition line (s : string) : string := s +:+ eol.

End Bytes.

(** ** Notions used in the statements *)

(** The value of [ucase (dl->name)] stored back into the list. *)
Definition ucase_name (dl : dlist) : dlist := dl_set_name (ucase (dl_name dl)) dl.

(** The cursor after the ordering step of a turn that does not exit. *)
Definition next_member_ts (member_ts ts : time_t) : time_t :=
  if member_ts =? -1 then ts else member_ts.

(** The lock type and the flags that the [switch] on the data mode
    arrives at. *)
Definition negotiated_lock (lock_type : backup_lock_type) (data_mode : backup_data_mode)
  : backup_lock_type :=
  match data_mode with
  | BACKUP_DATA_NORMAL => lock_type
  | _ => BACKUP_LOCK_EXCLUSIVE
  end.

Definition open_flags (data_mode : backup_data_mode) : Z :=
  match data_mode with
  | BACKUP_DATA_NORMAL => O_RDWR
  | BACKUP_DATA_APPEND => Z.lor O_RDWR O_APPEND
  | BACKUP_DATA_CREATE => Z.lor (Z.lor O_RDWR O_CREAT) O_EXCL
  end.

(** The world once the instants during which a request is blocked have
    gone by. *)
Definition lock_waited_out {P : Type} (exclusive : bool) (w : world P) : world P :=
  let k := lock_blocked exclusive (w_contention w) in
  set_contention (drop k (w_contention w)) (w_waited w + k)%nat w.

(** The length of a stream of bytes with the character [c] pushed back. *)
Definition pending (c : Z) (s : string) : nat :=
  (String.length s + (if Z.eqb c EOF then 0 else 1))%nat.

(** The open has stored a handle whose index connection has run the
    steps of the upgrade table beyond the version [stored]. *)
Definition upgrades_applied {P : Type} `{SqlConsts} (stored : Z)
    (opened : Z * option (@backup P) * world P) : Prop :=
  exists b d,
    opened.1.2 = Some b /\ backup_db b = Some d /\
    db_upgraded d = List.filter (fun u => stored <? upgrade_to u) backup_index_upgrade.

(** ** Inputs of the examples *)

(** Constants for the runs: the schema is at version 3, and there is a
    step to version 2 and one to version 3. *)
Definition example_consts : SqlConsts :=
  {| backup_index_initsql := "CREATE TABLE backup";
     backup_index_version := 3;
     backup_index_upgrade :=
       [ {| upgrade_to := 2; upgrade_sql := "ALTER TABLE backup ADD chunk" |};
         {| upgrade_to := 3; upgrade_sql := "ALTER TABLE backup ADD sha1" |} ] |}.

(** The same schema and version, reached from the older versions by one
    step. *)
Definition one_step_consts : SqlConsts :=
  {| backup_index_initsql := "CREATE TABLE backup";
     backup_index_version := 3;
     backup_index_upgrade :=
       [ {| upgrade_to := 3; upgrade_sql := "ALTER TABLE backup ADD chunk, sha1" |} ] |}.

(** A world whose only file is the log of the backup [name]. *)
Definition log_world (name : string) (members : list string) : world string :=
  upd_files (insert (name +:+ ".gz") (GzFile members)) empty_world.

(** A handle on descriptor 3, as [xzmalloc] and the first store leave it. *)
Definition example_backup : @backup string := set_fd 3 backup_zero.

Definition no_ts : string -> time_t := fun _ => 0.

(** Three records of one member, the third older than the second. *)
Definition member_1000_1005_1002 : string :=
  Bytes.line "1000 APPLY mailbox (a)" +:+ Bytes.line "1005 APPLY message (b)"
  +:+ Bytes.line "1002 APPLY sub (c)".


(** A member whose second line has text after the payload. *)
Definition member_tail : string := Bytes.line "1002 APPLY sub (c)".
Definition member_junk : string :=
  Bytes.line "1000 APPLY mailbox (a)" +:+ Bytes.line "1001 APPLY message (b) junk"
  +:+ member_tail.
Definition member_2000 : string := Bytes.line "2000 APPLY user (d)".

(** A member with an upper-case and a lower-case verb. *)
Definition member_verbs : string :=
  Bytes.line "1000 APPLY mailbox (a b)" +:+ Bytes.line "1001 apply message (c)".


(** What [backup_open_internal] returns to [backup_reindex] on the log of
    the backup "user". *)
Definition reindex_opened : list string -> Z * option (@backup string) * world string :=
  Eval vm_compute in
    (fun members =>
       @backup_open_internal string example_consts "user" BACKUP_LOCK_EXCLUSIVE
         BACKUP_DATA_NORMAL BACKUP_INDEX_CREATE (log_world "user" members)).

(** A world with the log of the backup [name] and its index, stored at
    the version [stored]. *)
Definition index_world (name : string) (members : list string) (stored : Z)
  : world string :=
  upd_files (insert (name +:+ ".index") (SqlFile stored)) (log_world name members).

(** The same world while another process holds the log exclusively for
    one instant. *)
Definition contended_world (name : string) (stored : Z) : world string :=
  set_contention [Some BACKUP_LOCK_EXCLUSIVE] O (index_world name [] stored).

(** A handle opened for appending although a SHARED lock was asked for,
    while another process holds the log for one instant. *)
Definition append_opened : Z * option (@backup string) * world string :=
  Eval vm_compute in
    @backup_open_internal string example_consts "user" BACKUP_LOCK_SHARED
      BACKUP_DATA_APPEND BACKUP_INDEX_WRITE (contended_world "user" 3).

(** A handle opened for writing on an index stored at version 1. *)
Definition write_opened : Z * option (@backup string) * world string :=
  Eval vm_compute in
    @backup_open_internal string example_consts "user" BACKUP_LOCK_EXCLUSIVE
      BACKUP_DATA_NORMAL BACKUP_INDEX_WRITE (index_world "user" [] 1).

(** The handle of a triple that holds one. *)
Definition handle_of (o : Z * option (@backup string) * world string) : @backup string :=
  default example_backup o.1.2.

(** An open while another process holds the log exclusively. *)
Definition contended_opened : Z * option (@backup string) * world string :=
  Eval vm_compute in
    @backup_open_internal string example_consts "user" BACKUP_LOCK_EXCLUSIVE
      BACKUP_DATA_NORMAL BACKUP_INDEX_READ (contended_world "user" 3).


Definition exclusive_failed : Z * option (@backup string) * world string :=
  Eval vm_compute in
    @backup_open_internal string example_consts "user" BACKUP_LOCK_EXCLUSIVE
      BACKUP_DATA_NORMAL BACKUP_INDEX_READ (index_world "user" [] 99).

(** ** Further notions used in the statements *)

(** The advisory locks of the process are on descriptors that are open. *)
Definition locks_on_open_fds {P : Type} (w : world P) : Prop :=
  forall fd, w_fds w !! fd = None -> w_locks w !! fd = None.







(** The second world holds the files, the descriptors, the locks, the
    index connections and the heap blocks of the first. *)
Definition same_resources {P : Type} (w w' : world P) : Prop :=
  w_files w' = w_files w /\ w_fds w' = w_fds w /\ w_locks w' = w_locks w /\
  w_dbs w' = w_dbs w /\ w_heap w' = w_heap w.




(** ** Inputs of the further examples *)

(** The open of [backup_reindex] on a world without files. *)
Definition missing_opened : Z * option (@backup string) * world string :=
  Eval vm_compute in
    @backup_open_internal string example_consts "user" BACKUP_LOCK_EXCLUSIVE
      BACKUP_DATA_NORMAL BACKUP_INDEX_CREATE empty_world.

(** An open that creates the index, on a world with an index stored at
    version 1. *)
Definition create_opened : Z * option (@backup string) * world string :=
  Eval vm_compute in
    @backup_open_internal string example_consts "user" BACKUP_LOCK_EXCLUSIVE
      BACKUP_DATA_NORMAL BACKUP_INDEX_CREATE (index_world "user" [] 1).

(** The same world with a directory under the name that the index is to
    be moved to, and the open on it. *)
Definition old_dir_world : world string :=
  upd_files (insert (("user" +:+ ".index") +:+ ".old") (Directory true))
    (index_world "user" [] 1).

Definition rename_failed : Z * option (@backup string) * world string :=
  Eval vm_compute in
    @backup_open_internal string example_consts "user" BACKUP_LOCK_EXCLUSIVE
      BACKUP_DATA_NORMAL BACKUP_INDEX_CREATE old_dir_world.

(** A world with an index of a newer version and no log, and the open that
    creates the log on it. *)
Definition newer_index_world : world string :=
  upd_files (insert ("user" +:+ ".index") (SqlFile 99)) empty_world.

Definition create_failed : Z * option (@backup string) * world string :=
  Eval vm_compute in
    @backup_open_internal string example_consts "user" BACKUP_LOCK_SHARED
      BACKUP_DATA_CREATE BACKUP_INDEX_WRITE newer_index_world.




(** The reindex of a log with a line that does not parse. *)
Definition junk_reindexed : option (reindex_result * world string) :=
  Eval vm_compute in
    @backup_reindex string Bytes.codec example_consts no_ts 10 "user"
      (log_world "user" [member_junk; member_verbs]).

(** The reindex of a log of one member: what it returns, and the world it
    leaves. *)
Definition verbs_reindexed : Z * world string :=
  Eval vm_compute in
    match @backup_reindex string Bytes.codec example_consts no_ts 10 "user"
            (log_world "user" [member_verbs]) with
    | Some (Returned r, w) => (r, w)
    | _ => (0, empty_world)
    end.

(** * The sieve lexer (sieve/sieve.l)

    The function [tonum] and the actions of the rules for numbers, quoted
    strings, multi-line text and time zones.  A start condition of the
    scanner is a function of the input that remains; it follows the way
    the generated scanner chooses a rule: the longest match, and among
    the matches of that length the rule that comes first. *)

From Stdlib Require DecimalString DecimalN DecimalPos.

Module Lexer.

(** ** The C library: [errno], [strtoull] and [atoi] *)

Definition ERANGE : Z := 34.
Definition ULLONG_MAX : Z := 2 ^ 64 - 1.
Definition INT_MAX : Z := 2 ^ 31 - 1.

(** An [unsigned long long] wraps around. *)
Definition wrap64 (n : Z) : Z := n mod 2 ^ 64.

Definition isspace (a : ascii) : bool :=
  let c := chr a in (c =? 32) || ((9 <=? c) && (c <=? 13)).

Definition isdigit (a : ascii) : bool :=
  let c := chr a in (48 <=? c) && (c <=? 57).

Fixpoint skip_space (s : string) : string :=
  match s with
  | String a s' => if isspace a then skip_space s' else s
  | EmptyString => s
  end.

(** An optional sign: whether it is [-], and what follows it. *)
Definition signed (s : string) : bool * string :=
  match s with
  | String "-" s' => (true, s')
  | String "+" s' => (false, s')
  | _ => (false, s)
  end.

(** The decimal digits at the head of a string: their value on top of
    [acc], and what follows them. *)
Fixpoint digits (s : string) (acc : Z) : Z * string :=
  match s with
  | String a s' => if isdigit a then digits s' (10 * acc + (chr a - 48)) else (acc, s)
  | EmptyString => (acc, s)
  end.

(** The double quote and the backslash. *)
Definition DQUOTE : ascii := ascii_of_nat 34.
Definition BACKSLASH : ascii := ascii_of_nat 92.

(** The character a [char *] points to: NUL at the end of the string. *)
Definition deref (s : string) : ascii :=
  match s with
  | String a _ => a
  | EmptyString => NUL
  end.

(** [strtoull (str, &units, 10)]: the value, the string [units] points
    into, and [errno].  White space and a sign may come first; without a
    digit nothing is converted; a value that does not fit gives
    [ULLONG_MAX] and sets [errno] to [ERANGE]; a conversion that
    succeeds leaves [errno] as it is. *)
Definition strtoull (str : string) (errno : Z) : Z * string * Z :=
  let '(neg, s) := signed (skip_space str) in
  if isdigit (deref s) then
    let '(n, units) := digits s 0 in
    if n >? ULLONG_MAX then (ULLONG_MAX, units, ERANGE)
    else (if neg then wrap64 (- n) else n, units, errno)
  else (0, str, errno).

(** [atoi (str)], for values that an [int] holds. *)
Definition atoi (str : string) : Z :=
  let '(neg, s) := signed (skip_space str) in
  let '(n, _) := digits s 0 in
  if neg then - n else n.

(** ** [tonum] *)

(** The value and [errno], which the function reads and does not
    reset. *)
Definition tonum (str : string) (errno : Z) : Z * Z :=
  let '(val, units, errno) := strtoull str errno in
  let val :=
    if negb (Ascii.eqb (deref units) NUL) && negb (errno =? ERANGE) then
      match toupper (deref units) with
      | "K"%char => wrap64 (val * Z.shiftl 1 10)
      | "M"%char => wrap64 (val * Z.shiftl 1 20)
      | "G"%char => wrap64 (val * Z.shiftl 1 30)
      | "T"%char => wrap64 (val * Z.shiftl 1 40)
      | "P"%char => wrap64 (val * Z.shiftl 1 50)
      | "E"%char => wrap64 (val * Z.shiftl 1 60)
      | _ => val
      end
    else val in
  (val, errno).

(** ** The scanner *)

Inductive start :=
| INITIAL | MULTILINE | QSTRING | QCOLLATION | QRELATION | QIMPORTANCE | QTIMEZONE
| QDATEPART.

(** The tokens of the rules below; [CHAR] is the character that the last
    rule returns. *)
Inductive token := NUMBER | STRING | TIMEZONE | CHAR (c : ascii).

(** What an action stores in [yylval]: a number in [nval], or the buffer
    that [buf_release] is called on in [sval]. *)
Inductive yystype := Nval (n : Z) | Sval (buf : string) | NoVal.

(** One call of [yylex] from a start condition: a token is returned with
    the start condition and the input that are left; the scanner
    terminates after a call of [sieveerror]; or an action that does not
    return has reported an error with [sieveerror_f], and the scan goes on
    in the start condition that it has set. *)
Inductive scan :=
| Token (t : token) (v : yystype) (next : start) (rest : string)
| Terminated (error : string) (next : start)
| Reported (error : string) (next : start) (rest : string)
| EndOfFile.

(** [buf_putc]: one more byte at the end of the buffer. *)
Definition buf_putc (buf : string) (a : ascii) : string := buf +:+ String a EmptyString.

(** *** Numbers *)

(** The action of the rule [<INITIAL>[0-9]+[KMGkmg]?] on the text it
    matched: the error that is reported, if any, the value that is
    assigned to [nval] (before the conversion to the type of that field),
    the token and [errno]. *)
Record number_result := {
  number_error : option string;
  number_nval : Z;
  number_token : token;
  number_errno : Z
}.

Definition number (yytext : string) (errno : Z) : number_result :=
  let '(val, errno) := tonum yytext errno in
  {| number_error :=
       if val >? INT_MAX then Some ("number too large " +:+ yytext) else None;
     number_nval := val;
     number_token := NUMBER;
     number_errno := errno |}.

(** *** Quoted strings *)

(** The start condition QSTRING.  The rules, in the order of the file: a
    double quote ends the string; a backslash and a character that is not
    a line feed put that character; any other character, a line feed
    included, is put; the end of the file is an error.  Two characters
    are matched by the second rule only. *)
Fixpoint qstring (s : string) (buf : string) : scan :=
  match s with
  | EmptyString => Terminated "unexpected end of file in string" INITIAL
  | String a s' =>
      if Ascii.eqb a DQUOTE then Token STRING (Sval buf) INITIAL s'
      else if Ascii.eqb a BACKSLASH then
        match s' with
        | String c s'' =>
            if Ascii.eqb c LF then qstring s' (buf_putc buf a)
            else qstring s'' (buf_putc buf c)
        | EmptyString => qstring s' (buf_putc buf a)
        end
      else qstring s' (buf_putc buf a)
  end.

(** *** Multi-line text *)

(** The start condition MULTILINE.  [at_bol] says that the scanner is at
    the beginning of a line: the text matched last ended with a line
    feed.  There a dot and a line break end the text and two dots put
    one; any other character is put. *)
Fixpoint multiline (at_bol : bool) (s : string) (buf : string) : scan :=
  match s with
  | EmptyString => Terminated "unexpected end of file in string" INITIAL
  | String a s' =>
      if at_bol && Ascii.eqb a "." then
        match s' with
        | String b s'' =>
            if Ascii.eqb b CR then
              match s'' with
              | String c s''' =>
                  if Ascii.eqb c LF then Token STRING (Sval buf) INITIAL s'''
                  else Token STRING (Sval buf) INITIAL s''
              | EmptyString => Token STRING (Sval buf) INITIAL s''
              end
            else if Ascii.eqb b LF then Token STRING (Sval buf) INITIAL s''
            else if Ascii.eqb b "." then multiline false s'' (buf_putc buf b)
            else multiline false s' (buf_putc buf a)
        | EmptyString => multiline false s' (buf_putc buf a)
        end
      else multiline (Ascii.eqb a LF) s' (buf_putc buf a)
  end.

(** *** Time zones *)

(** The text up to the next double quote, and what follows that quote. *)
Fixpoint to_quote (s : string) : option (string * string) :=
  match s with
  | EmptyString => None
  | String a s' =>
      if Ascii.eqb a DQUOTE then Some (EmptyString, s')
      else match to_quote s' with
           | Some (text, rest) => Some (String a text, rest)
           | None => None
           end
  end.

Definition in_range (lo hi a : ascii) : bool := (chr lo <=? chr a) && (chr a <=? chr hi).

(** The definition [timezone]: [[-|+][0-1][0-9][0-5][0-9]]. *)
Definition timezone (text : string) : bool :=
  match text with
  | String s (String h1 (String h2 (String m1 (String m2 EmptyString)))) =>
      (Ascii.eqb s "-" || Ascii.eqb s "|" || Ascii.eqb s "+")
      && in_range "0" "1" h1 && in_range "0" "9" h2
      && in_range "0" "5" m1 && in_range "0" "9" m2
  | _ => false
  end.

(** The action of the rule for a quoted [timezone] in QTIMEZONE, on the
    text between the quotes: [atoi] reads what follows the first quote, and
    [/] and [%] of C truncate towards zero. *)
Definition timezone_nval (text : string) : Z :=
  let tz := atoi (text +:+ String DQUOTE EmptyString) in
  60 * (Z.quot tz 100) + Z.rem tz 100.

Definition is_blank (a : ascii) : bool :=
  Ascii.eqb a " " || Ascii.eqb a (ascii_of_nat 9) || Ascii.eqb a LF || Ascii.eqb a CR.

(** The start condition QTIMEZONE: white space is passed over; a quoted
    time zone is returned; another quoted text is reported; any other
    character is returned as it is by the last rule of the file. *)
Fixpoint qtimezone (s : string) : scan :=
  match s with
  | EmptyString => EndOfFile
  | String a s' =>
      if is_blank a then qtimezone s'
      else if Ascii.eqb a DQUOTE then
        match to_quote s' with
        | Some (text, rest) =>
            if timezone text then Token TIMEZONE (Nval (timezone_nval text)) INITIAL rest
            else Reported ("invalid time-zone " +:+ String a (text +:+ String DQUOTE EmptyString)) INITIAL rest
        | None => Token (CHAR a) NoVal QTIMEZONE s'
        end
      else Token (CHAR a) NoVal QTIMEZONE s'
  end.

(** ** Notions used in the statements *)

(** The decimal numeral of a number. *)
Definition numeral (n : Z) : string :=
  DecimalString.NilZero.string_of_uint (N.to_uint (Z.to_N n)).

(** The factor that a unit letter stands for. *)
Definition unit_factor (u : ascii) : Z :=
  match toupper u with
  | "K"%char => 2 ^ 10
  | "M"%char => 2 ^ 20
  | "G"%char => 2 ^ 30
  | "T"%char => 2 ^ 40
  | "P"%char => 2 ^ 50
  | "E"%char => 2 ^ 60
  | _ => 1
  end.

(** The units that the rule for numbers allows: [[KMGkmg]]. *)
Definition is_unit (u : ascii) : bool :=
  existsb (Ascii.eqb u) ["K"; "M"; "G"; "k"; "m"; "g"]%char.

(** A string as it is written between double quotes: a backslash before
    every double quote and every backslash. *)
Fixpoint quoted (s : string) : string :=
  match s with
  | EmptyString => EmptyString
  | String a s' =>
      if Ascii.eqb a DQUOTE || Ascii.eqb a BACKSLASH then String BACKSLASH (String a (quoted s'))
      else String a (quoted s')
  end.

(** The characters of a string. *)
Fixpoint has_char (a : ascii) (s : string) : bool :=
  match s with
  | EmptyString => false
  | String b s' => Ascii.eqb a b || has_char a s'
  end.

(** A line of text as it is written in a multi-line text: a dot before a
    line that starts with a dot, and a line feed at the end. *)
Definition stuffed (l : string) : string :=
  match l with
  | String "." _ => String "." l
  | _ => l
  end +:+ String LF EmptyString.

Definition unstuffed (l : string) : string := l +:+ String LF EmptyString.

Fixpoint concat_map (f : string -> string) (ls : list string) : string :=
  match ls with
  | [] => EmptyString
  | l :: ls' => f l +:+ concat_map f ls'
  end.

(** The digit with the value [d]. *)
Definition digit (d : Z) : ascii := ascii_of_Z (48 + d).

(** The text of a time zone of [h] hours and [m] minutes after the
    character [s]. *)
Definition zone_text (s : ascii) (h m : Z) : string :=
  String s (String (digit (h / 10)) (String (digit (h mod 10))
    (String (digit (m / 10)) (String (digit (m mod 10)) EmptyString)))).

(** What the sign character of a time zone makes of the minutes. *)
Definition zone_sign (s : ascii) : Z :=
  if Ascii.eqb s "-" then -1 else if Ascii.eqb s "+" then 1 else 0.

(** White space only. *)
Fixpoint all_blank (s : string) : bool :=
  match s with
  | EmptyString => true
  | String a s' => is_blank a && all_blank s'
  end.

(** The rule for time zones on every text of a time zone: the text is
    one, it holds no double quote, and the action gives the minutes with
    their sign. *)
Definition zone_table : bool :=
  forallb (fun s =>
    forallb (fun h =>
      forallb (fun m =>
        timezone (zone_text s h m)
        && negb (has_char DQUOTE (zone_text s h m))
        && (timezone_nval (zone_text s h m) =? zone_sign s * (60 * h + m)))
        (map Z.of_nat (seq 0 60)))
      (map Z.of_nat (seq 0 20)))
    ["-"; "|"; "+"]%char.

End Lexer.
(** * Properties *)

(** ** Strings *)

Lemma chr_nonneg a : 0 <= chr a.
Proof. unfold chr. lia. Qed.

Lemma chr_inj a b : chr a = chr b -> a = b.
Proof.
  unfold chr. intros E. apply N2Z.inj in E.
  rewrite <- (ascii_N_embedding a), <- (ascii_N_embedding b). now rewrite E.
Qed.

Lemma buf_cstring_no_nul b a s : buf_cstring b = String a s -> chr a <> 0.
Proof.
  destruct b as [|a' b']; simpl; [discriminate|].
  destruct (Ascii.eqb_spec a' NUL) as [->|Hne]; [discriminate|].
  intros [= <- _] E. apply Hne. now apply chr_inj.
Qed.

Lemma buf_cstring_tail b a s : buf_cstring b = String a s -> exists b', s = buf_cstring b'.
Proof.
  destruct b as [|a' b']; simpl; [discriminate|].
  destruct (Ascii.eqb a' NUL); [discriminate|].
  intros [= _ <-]. now exists b'.
Qed.

(** On C strings [strcmp] is [0] exactly for equal strings. *)
Lemma strcmp_cstring_eq s2 : forall b, strcmp (buf_cstring b) (buf_cstring s2) = 0 <-> buf_cstring b = buf_cstring s2.
Proof.
  induction s2 as [|a2 s2 IH]; intros b.
  - simpl. destruct (buf_cstring b) as [|a s] eqn:E; simpl; [tauto|].
    split; [|discriminate]. intros Hz. now apply buf_cstring_no_nul in E.
  - simpl buf_cstring at 2 4. destruct (Ascii.eqb_spec a2 NUL) as [->|Hne].
    + destruct (buf_cstring b) as [|a s] eqn:E; simpl; [tauto|].
      split; [|discriminate]. intros Hz. now apply buf_cstring_no_nul in E.
    + destruct (buf_cstring b) as [|a s] eqn:E; simpl.
      * split; [|discriminate]. intros Hz. exfalso. apply Hne, chr_inj.
        change (chr NUL) with 0. lia.
      * destruct (buf_cstring_tail _ _ _ E) as [b' ->].
        destruct (Ascii.eqb_spec a a2) as [->|Hd].
        -- rewrite IH. split; [now intros ->|now intros [= ->]].
        -- split; [|now intros [= ? _]]. intros Hz. exfalso. apply Hd, chr_inj. lia.
Qed.

Lemma strcmp_APPLY b : strcmp (buf_cstring b) "APPLY" = 0 <-> buf_cstring b = "APPLY"%string.
Proof. apply (strcmp_cstring_eq "APPLY"). Qed.

(** ** The reindex loop *)

Section Reindex.

Context {P : Type} `{RecordCodec P}.
Variable indet : P -> time_t.

(** A command that parsed ends with LF, which is what is returned. *)
Lemma parse_command_success (i i' : P) c o :
  backup_parse_command i = (c, Some o, i') -> c = chr LF.
Proof.
  unfold backup_parse_command. intros E.
  repeat case_match; simplify_eq.
  all: match goal with
       | Hn : negb (_ =? chr LF) = false |- _ =>
           apply negb_false_iff, Z.eqb_eq in Hn; exact Hn
       end.
Qed.

(** A turn of the loop on a command that parsed. *)
Lemma reindex_iteration_parsed b member_ts r (member member' : P) w c o :
  backup_parse_command member = (c, Some o, member') ->
  reindex_iteration indet b member_ts r member w =
    if negb (member_ts =? -1) && (member_ts >? cmd_ts o)
    then IterFatal "timestamp older than previous"
    else if strcmp (buf_cstring (cmd_buf o)) "APPLY" =? 0
         then IterNext (next_member_ts member_ts (cmd_ts o)) (-1) member'
                (log_index_call (cmd_ts o) (ucase_name (cmd_dl o)) w)
         else IterNext (next_member_ts member_ts (cmd_ts o)) r member' w.
Proof.
  intros E. pose proof (parse_command_success _ _ _ _ E) as ->.
  unfold reindex_iteration, next_member_ts. rewrite E.
  change (chr LF =? EOF) with false. cbv iota.
  destruct (member_ts =? -1); simpl.
  - destruct (strcmp _ _ =? 0); reflexivity.
  - destruct (member_ts >? cmd_ts o); simpl; [reflexivity|].
    destruct (strcmp _ _ =? 0); reflexivity.
Qed.

(** Once it is set, [member_ts] keeps its value to the end of the member:
    no turn of the loop stores into it again. *)
Lemma member_ts_set_once b member_ts r (member member' : P) w member_ts' r' w' :
  reindex_iteration indet b member_ts r member w = IterNext member_ts' r' member' w' ->
  member_ts <> -1 -> member_ts' = member_ts.
Proof.
  unfold reindex_iteration. intros E Hset.
  apply Z.eqb_neq in Hset. rewrite Hset in E.
  repeat case_match; simplify_eq; reflexivity.
Qed.

(** The loop is left exactly when [backup_parse_command] returns [EOF]. *)
Lemma reindex_iteration_break b member_ts r (member : P) w :
  (exists member', reindex_iteration indet b member_ts r member w = IterBreak member')
  <-> (backup_parse_command member).1.1 = EOF.
Proof.
  unfold reindex_iteration.
  destruct (backup_parse_command member) as [[c out] member']. simpl.
  destruct (Z.eqb_spec c EOF) as [->|Hne].
  - split; [reflexivity|]. intros _. now exists member'.
  - split; [|contradiction]. intros [m E].
    repeat case_match; simplify_eq.
Qed.

(** [ucase] is never handed the name of a [NULL] list. *)
Lemma reindex_iteration_no_crash b member_ts r (member : P) w :
  reindex_iteration indet b member_ts r member w <> IterCrash.
Proof.
  unfold reindex_iteration.
  destruct (backup_parse_command member) as [[c [o|]] member']; simpl;
    repeat case_match; simplify_eq; try discriminate.
  all: match goal with
       | Hs : negb (strcmp (buf_cstring EmptyString) _ =? 0) = false |- _ =>
           vm_compute in Hs; discriminate
       end.
Qed.

(** A turn of the loop on a command that failed with a character other
    than [EOF]: the value of [ts] is the one that was not stored, and the
    verb is the empty word. *)
Lemma reindex_iteration_failed b member_ts r (member member' : P) w c :
  backup_parse_command member = (c, None, member') ->
  c <> EOF ->
  reindex_iteration indet b member_ts r member w =
    if negb (member_ts =? -1) && (member_ts >? indet member')
    then IterFatal "timestamp older than previous"
    else IterNext (next_member_ts member_ts (indet member')) r member' w.
Proof.
  intros E Hc. unfold reindex_iteration, next_member_ts. rewrite E.
  apply Z.eqb_neq in Hc. rewrite Hc. cbv iota.
  destruct (member_ts =? -1); simpl; [reflexivity|].
  destruct (member_ts >? indet member'); reflexivity.
Qed.

(** The inner loop, turn by turn. *)
Lemma reindex_member_break fuel b member_ts r (member : P) w :
  (backup_parse_command member).1.1 = EOF ->
  reindex_member indet (S fuel) b member_ts r member w = Some (LoopEnd r w).
Proof.
  intros E. apply (reindex_iteration_break b member_ts r member w) in E as [m E].
  simpl. rewrite E. reflexivity.
Qed.

Lemma reindex_member_apply fuel b member_ts r (member member' : P) w c o :
  backup_parse_command member = (c, Some o, member') ->
  negb (member_ts =? -1) && (member_ts >? cmd_ts o) = false ->
  (strcmp (buf_cstring (cmd_buf o)) "APPLY" =? 0) = true ->
  reindex_member indet (S fuel) b member_ts r member w =
    reindex_member indet fuel b (next_member_ts member_ts (cmd_ts o)) (-1) member'
      (log_index_call (cmd_ts o) (ucase_name (cmd_dl o)) w).
Proof.
  intros E Ho Hv. simpl. rewrite (reindex_iteration_parsed b _ r _ _ w _ _ E), Ho, Hv.
  reflexivity.
Qed.


Lemma reindex_member_fatal fuel b member_ts r (member member' : P) w c o :
  backup_parse_command member = (c, Some o, member') ->
  negb (member_ts =? -1) && (member_ts >? cmd_ts o) = true ->
  reindex_member indet (S fuel) b member_ts r member w =
    Some (LoopFatal "timestamp older than previous" w).
Proof.
  intros E Ho. simpl. rewrite (reindex_iteration_parsed b _ r _ _ w _ _ E), Ho.
  reflexivity.
Qed.

Lemma reindex_member_failed fuel b member_ts r (member member' : P) w c :
  backup_parse_command member = (c, None, member') ->
  c <> EOF ->
  reindex_member indet (S fuel) b member_ts r member w =
    if negb (member_ts =? -1) && (member_ts >? indet member')
    then Some (LoopFatal "timestamp older than previous" w)
    else reindex_member indet fuel b (next_member_ts member_ts (indet member')) r member' w.
Proof.
  intros E Hc. simpl. rewrite (reindex_iteration_failed b _ r _ _ w _ E Hc).
  destruct (negb (member_ts =? -1) && (member_ts >? indet member')); reflexivity.
Qed.

(** A member on which the process exits ends the whole loop: the members
    after it are not read. *)
Lemma reindex_members_fatal fuel b (member : P) rest r w msg w' :
  reindex_member indet fuel b (-1) r member w = Some (LoopFatal msg w') ->
  reindex_members indet fuel b (member :: rest) r w = Some (LoopFatal msg w').
Proof. intros E. cbn [reindex_members]. rewrite E. reflexivity. Qed.

(** C1 (amended): within a member, for a command that parses while the
    cursor is set: when its timestamp is below the cursor the process
    exits at once, nothing more being submitted to the index; otherwise
    the loop goes on and the cursor is left as it is: it is not advanced
    to the timestamp of the command. *)
Theorem reindex_cursor_set_once fuel b member_ts r (member member' : P) w c o :
  backup_parse_command member = (c, Some o, member') ->
  member_ts <> -1 ->
  (cmd_ts o < member_ts ->
   reindex_iteration indet b member_ts r member w =
     IterFatal "timestamp older than previous" /\
   reindex_member indet (S fuel) b member_ts r member w =
     Some (LoopFatal "timestamp older than previous" w)) /\
  (member_ts <= cmd_ts o ->
   exists r' w',
     reindex_iteration indet b member_ts r member w = IterNext member_ts r' member' w').
Proof.
  intros E Hset. apply Z.eqb_neq in Hset.
  assert (next_member_ts member_ts (cmd_ts o) = member_ts) as Hnext
    by (unfold next_member_ts; now rewrite Hset).
  split.
  - intros Hlt.
    assert (negb (member_ts =? -1) && (member_ts >? cmd_ts o) = true) as Hf.
    { rewrite Hset. simpl. rewrite Z.gtb_ltb. now apply Z.ltb_lt. }
    split.
    + rewrite (reindex_iteration_parsed b _ r _ _ w _ _ E), Hf. reflexivity.
    + exact (reindex_member_fatal fuel b member_ts r member member' w c o E Hf).
  - intros Hle.
    rewrite (reindex_iteration_parsed b _ r _ _ w _ _ E), Hnext.
    assert (negb (member_ts =? -1) && (member_ts >? cmd_ts o) = false) as ->.
    { apply andb_false_iff. right. rewrite Z.gtb_ltb. now apply Z.ltb_ge. }
    destruct (strcmp (buf_cstring (cmd_buf o)) "APPLY" =? 0); eexists _, _; reflexivity.
Qed.


(** C6: during reindex a record is submitted to the index exactly when
    its verb is the literal APPLY, compared byte for byte (the lower-case
    word is not): for a command that parsed and that passes the ordering
    step, the turn goes on, and when the verb is APPLY the calls of
    [backup_index_dlist] are those of before and one more, with the
    timestamp and the payload whose name was upper-cased; otherwise the
    calls, the rest of the world and [r] are as they were, the payload
    left aside as it was parsed. *)
Theorem reindex_submits_exactly_APPLY b member_ts r (member member' : P) w c o :
  backup_parse_command member = (c, Some o, member') ->
  member_ts = -1 \/ member_ts <= cmd_ts o ->
  exists r' w',
    reindex_iteration indet b member_ts r member w =
      IterNext (next_member_ts member_ts (cmd_ts o)) r' member' w' /\
    (buf_cstring (cmd_buf o) = "APPLY"%string ->
       r' = -1 /\
       w' = log_index_call (cmd_ts o) (ucase_name (cmd_dl o)) w /\
       w_index_calls w' = w_index_calls w ++ [(cmd_ts o, ucase_name (cmd_dl o))] /\
       dl_name (ucase_name (cmd_dl o)) = ucase (dl_name (cmd_dl o))) /\
    (buf_cstring (cmd_buf o) <> "APPLY"%string ->
       r' = r /\ w' = w /\ w_index_calls w' = w_index_calls w) /\
    (buf_cstring (cmd_buf o) = "apply"%string -> w_index_calls w' = w_index_calls w).
Proof.
  intros E Hord.
  rewrite (reindex_iteration_parsed b _ r _ _ w _ _ E).
  assert (negb (member_ts =? -1) && (member_ts >? cmd_ts o) = false) as ->.
  { destruct Hord as [->|Hle]; [reflexivity|].
    apply andb_false_iff. right. rewrite Z.gtb_ltb. apply Z.ltb_ge. exact Hle. }
  destruct (Z.eqb_spec (strcmp (buf_cstring (cmd_buf o)) "APPLY") 0) as [Hz|Hnz].
  - apply strcmp_APPLY in Hz. eexists _, _. split; [reflexivity|].
    split; [|split].
    + intros _. split; [reflexivity|]. split; [reflexivity|]. split; [reflexivity|].
      unfold ucase_name. destruct (cmd_dl o); reflexivity.
    + intros Hv. contradiction.
    + intros Hv. rewrite Hv in Hz. discriminate Hz.
  - eexists _, _. split; [reflexivity|].
    split; [|split].
    + intros Hv. apply strcmp_APPLY in Hv. contradiction.
    + intros _. auto.
    + intros _. reflexivity.
Qed.


End Reindex.

(** ** Runs of the reindexer on the bytes of a log *)

Section Runs.

Import Bytes.
#[local] Existing Instance example_consts.

(** The first line of a member with the verbs APPLY and apply. *)
Lemma reindex_submits_exactly_APPLY_witness :
  backup_parse_command member_verbs =
    (10, Some {| cmd_ts := 1000; cmd_buf := "APPLY";
                 cmd_dl := DList "mailbox" [DAtom "" "a"; DAtom "" "b"] |},
     line "1001 apply message (c)") /\
  exists r' w',
    reindex_iteration no_ts example_backup (-1) 0 member_verbs empty_world =
      IterNext 1000 r' (line "1001 apply message (c)") w' /\
    r' = -1 /\
    w_index_calls w' =
      w_index_calls (@empty_world string)
        ++ [(1000, DList "MAILBOX" [DAtom "" "a"; DAtom "" "b"])].
Proof.
  assert (backup_parse_command member_verbs =
            (10, Some {| cmd_ts := 1000; cmd_buf := "APPLY";
                         cmd_dl := DList "mailbox" [DAtom "" "a"; DAtom "" "b"] |},
             line "1001 apply message (c)")) as E by reflexivity.
  split; [exact E|].
  destruct (reindex_submits_exactly_APPLY no_ts example_backup (-1) 0
              member_verbs (line "1001 apply message (c)") empty_world 10
              {| cmd_ts := 1000; cmd_buf := "APPLY";
                 cmd_dl := DList "mailbox" [DAtom "" "a"; DAtom "" "b"] |}
              E (or_introl eq_refl))
    as (r' & w' & Ei & Happly & _).
  destruct (Happly eq_refl) as (Hr & _ & Hcalls & _).
  exists r', w'. split; [exact Ei|]. split; [exact Hr|]. exact Hcalls.
Defined.


(** What [backup_reindex] has in hand when it enters its loop on the log
    of the backup "user". *)
Lemma reindex_opens (members : list string) :
  exists b w0,
    backup_open_internal "user" BACKUP_LOCK_EXCLUSIVE BACKUP_DATA_NORMAL
      BACKUP_INDEX_CREATE (log_world "user" members) = (0, Some b, w0) /\
    gzuc_open (backup_fd b) w0 = Some members /\
    w_index_calls w0 = [].
Proof.
  exists (default example_backup (reindex_opened members).1.2), (reindex_opened members).2.
  repeat split; vm_compute; reflexivity.
Qed.

(** C1 does not hold as it is stated: a member with the timestamps 1000,
    1005 and 1002.  The third record is older than the second, and the
    reindex does not exit: the cursor
    stays at 1000, the timestamp of the first record, and the three
    records are submitted to the index. *)
Lemma reindex_cursor_not_advanced :
  exists w',
    backup_reindex no_ts 10 "user" (log_world "user" [member_1000_1005_1002]) =
      Some (Returned (-1), w') /\
    w_index_calls w' =
      [ (1000, DList "MAILBOX" [DAtom "" "a"]);
        (1005, DList "MESSAGE" [DAtom "" "b"]);
        (1002, DList "SUB" [DAtom "" "c"]) ].
Proof. eexists. split; vm_compute; reflexivity. Qed.

(** The record at 1005 of a member whose cursor is 1000. *)
Lemma reindex_cursor_set_once_witness :
  backup_parse_command (line "1005 APPLY message (b)" +:+ line "1002 APPLY sub (c)") =
    (10, Some {| cmd_ts := 1005; cmd_buf := "APPLY"; cmd_dl := DList "message" [DAtom "" "b"] |},
     line "1002 APPLY sub (c)") /\
  1000 <> -1 /\ 1000 <= 1005 /\
  exists r' w',
    reindex_iteration no_ts example_backup 1000 (-1)
      (line "1005 APPLY message (b)" +:+ line "1002 APPLY sub (c)") empty_world =
      IterNext 1000 r' (line "1002 APPLY sub (c)") w'.
Proof.
  split; [reflexivity|]. split; [discriminate|]. split; [discriminate|].
  refine (proj2 (reindex_cursor_set_once no_ts 9 example_backup 1000 (-1)
            (line "1005 APPLY message (b)" +:+ line "1002 APPLY sub (c)")
            (line "1002 APPLY sub (c)") empty_world 10
            {| cmd_ts := 1005; cmd_buf := "APPLY";
               cmd_dl := DList "message" [DAtom "" "b"] |} _ _) _).
  - reflexivity.
  - discriminate.
  - discriminate.
Defined.



(** C5: a member whose second line has text after the payload, followed by
    a second member.  [backup_parse_command] fails on that line and returns
    the space that follows the payload, not [EOF]; the loop is not left.
    It reads the [ts] that was not stored: when that value is below the
    cursor the process exits and the second member is never read, and
    otherwise the third line of the same member is parsed and submitted. *)
Theorem reindex_past_malformed_line (indet : string -> time_t) :
  backup_parse_command (line "1001 APPLY message (b) junk" +:+ member_tail) =
    (32, None, member_tail) /\
  exists w',
    backup_reindex indet 10 "user" (log_world "user" [member_junk; member_2000]) =
      Some (if 1000 >? indet member_tail
            then Fatal "timestamp older than previous" else Returned (-1), w') /\
    w_index_calls w' =
      if 1000 >? indet member_tail
      then [ (1000, DList "MAILBOX" [DAtom "" "a"]) ]
      else [ (1000, DList "MAILBOX" [DAtom "" "a"]);
             (1002, DList "SUB" [DAtom "" "c"]);
             (2000, DList "USER" [DAtom "" "d"]) ].
Proof.
  split; [reflexivity|].
  destruct (reindex_opens [member_junk; member_2000]) as (b & w0 & Eo & Eg & Ec).
  assert (E1 : backup_parse_command member_junk =
            (10, Some {| cmd_ts := 1000; cmd_buf := "APPLY";
                         cmd_dl := DList "mailbox" [DAtom "" "a"] |},
             line "1001 APPLY message (b) junk" +:+ member_tail)) by reflexivity.
  assert (E2 : backup_parse_command (line "1001 APPLY message (b) junk" +:+ member_tail) =
            (32, None, member_tail)) by reflexivity.
  assert (E3 : backup_parse_command member_tail =
            (10, Some {| cmd_ts := 1002; cmd_buf := "APPLY";
                         cmd_dl := DList "sub" [DAtom "" "c"] |}, EmptyString))
    by reflexivity.
  assert (E4 : (backup_parse_command EmptyString).1.1 = EOF) by reflexivity.
  assert (E5 : backup_parse_command member_2000 =
            (10, Some {| cmd_ts := 2000; cmd_buf := "APPLY";
                         cmd_dl := DList "user" [DAtom "" "d"] |}, EmptyString))
    by reflexivity.
  unfold backup_reindex. rewrite Eo. cbv iota beta. change (negb (0 =? 0)) with false.
  cbv iota. rewrite Eg.
  change (reindex_members indet 10 b [member_junk; member_2000] 0 w0)
    with (match reindex_member indet 10 b (-1) 0 member_junk w0 with
          | Some (LoopEnd r' w') => reindex_members indet 10 b [member_2000] r' w'
          | other => other
          end).
  rewrite (reindex_member_apply indet 9 b (-1) 0 _ _ w0 _ _ E1) by reflexivity.
  rewrite (reindex_member_failed indet 8 b _ _ _ _ _ 32 E2 ltac:(discriminate)).
  match goal with
  | |- context [negb ?a && (?x >? indet member_tail)] =>
      change (negb a && (x >? indet member_tail)) with (1000 >? indet member_tail)
  end.
  destruct (1000 >? indet member_tail).
  - eexists. split; [reflexivity|]. cbn. rewrite Ec. reflexivity.
  - rewrite (reindex_member_apply indet 7 b _ _ _ _ _ _ _ E3) by reflexivity.
    rewrite (reindex_member_break indet 6 b _ _ _ _ E4).
    cbv iota beta.
    match goal with
    | |- context [reindex_members indet 10 b [member_2000] ?r ?w] =>
        change (reindex_members indet 10 b [member_2000] r w)
          with (match reindex_member indet 10 b (-1) r member_2000 w with
                | Some (LoopEnd r' w') => reindex_members indet 10 b [] r' w'
                | other => other
                end)
    end.
    rewrite (reindex_member_apply indet 9 b (-1) _ _ _ _ _ _ E5) by reflexivity.
    rewrite (reindex_member_break indet 8 b _ _ _ _ E4).
    eexists. split; [reflexivity|]. cbn. rewrite Ec. reflexivity.
Qed.

End Runs.

(** ** Opening and closing a handle *)

Section Open.

Context {P : Type} `{SqlConsts}.

Lemma gzname_neq_idxname (name : string) : name +:+ ".gz" <> name +:+ ".index".
Proof. induction name as [|a name IH]; simpl; [discriminate|]. intros [= E]. auto. Qed.

Lemma lowest_free_ge (fds : gmap Z string) n k : k <= lowest_free fds n k.
Proof.
  revert k. induction n as [|n IH]; intros k; simpl; [lia|].
  destruct (fds !! k); [|lia]. specialize (IH (k + 1)). lia.
Qed.

(** The three assertions at the head of [backup_open_internal] hold for
    every value of the enums. *)
Lemma open_asserts_hold lock_type data_mode index_mode :
  backup_is_valid_lock_type lock_type = true /\
  backup_is_valid_data_mode data_mode = true /\
  backup_is_valid_index_mode index_mode = true.
Proof. destruct lock_type, data_mode, index_mode; repeat split. Qed.

(** [backup_open_internal] with the outcome of its [switch] named. *)
Lemma backup_open_internal_unfold name lock_type data_mode index_mode (w : world P) :
  backup_open_internal name lock_type data_mode index_mode w =
    let gzname := name +:+ ".gz" in
    let idxname := name +:+ ".index" in
    let w := alloc idxname (alloc gzname (alloc name (alloc struct_backup w))) in
    let b := set_names name gzname idxname (set_fd (-1) backup_zero) in
    let '(fd, w) := sys_open gzname (open_flags data_mode) w in
    let b := set_fd fd b in
    if fd <? 0 then backup_open_error b (w_errno w) w
    else
      let b := set_data data_mode b in
      let '(r, w) :=
        lock_setlock fd
          (bool_decide (negotiated_lock lock_type data_mode = BACKUP_LOCK_EXCLUSIVE))
          0 (Some gzname) w in
      if negb (r =? 0) then backup_open_error b r w
      else
        let b := set_lock (negotiated_lock lock_type data_mode) b in
        match index_mode with
        | BACKUP_INDEX_READ => backup_open_index b idxname None None index_mode w
        | BACKUP_INDEX_WRITE =>
            backup_open_index b idxname (Some backup_index_initsql)
              (Some backup_index_upgrade) index_mode w
        | BACKUP_INDEX_CREATE =>
            let oldidxname := idxname +:+ ".old" in
            let w := alloc oldidxname w in
            let '(r, w) := sys_rename idxname oldidxname w in
            if negb (r =? 0) && negb (w_errno w =? ENOENT)
            then backup_open_error b (w_errno w) (free oldidxname w)
            else
              let b := set_oldidxname oldidxname b in
              backup_open_index b idxname (Some backup_index_initsql)
                (Some backup_index_upgrade) index_mode w
        end.
Proof. unfold backup_open_internal. destruct data_mode; reflexivity. Qed.

(** The lock type that [lock_setlock] is asked for. *)
Lemma lock_of_exclusive (t : backup_lock_type) :
  (if bool_decide (t = BACKUP_LOCK_EXCLUSIVE)
   then BACKUP_LOCK_EXCLUSIVE else BACKUP_LOCK_SHARED) = t.
Proof. destruct t; reflexivity. Qed.

(** What the collaborators leave untouched. *)
Lemma sys_open_result path flags (w w' : world P) fd :
  sys_open path flags w = (fd, w') ->
  (fd = -1 /\ w_fds w' = w_fds w /\ w_files w' = w_files w) \/
  (0 <= fd /\ w_fds w' = <[fd := path]> (w_fds w) /\ w_errno w' = w_errno w /\
   forall q, q <> path -> w_files w' !! q = w_files w !! q).
Proof.
  unfold sys_open, new_fd. intros E.
  pose proof (lowest_free_ge (w_fds w) (size (w_fds w)) 0) as Hge.
  repeat case_match; simplify_eq; simpl; auto.
  all: right; repeat split; auto.
  intros q Hq. now rewrite lookup_insert_ne.
Qed.

Lemma sys_open_frame path flags (w w' : world P) fd :
  sys_open path flags w = (fd, w') ->
  w_locks w' = w_locks w /\ w_contention w' = w_contention w /\
  w_waited w' = w_waited w /\ w_enolck w' = w_enolck w /\
  w_dbs w' = w_dbs w /\ w_heap w' = w_heap w /\ w_index_calls w' = w_index_calls w.
Proof.
  unfold sys_open, new_fd. intros E.
  repeat case_match; simplify_eq; simpl; auto 10.
Qed.

Lemma lock_setlock_blocking fd exclusive filename (w w' : world P) r :
  lock_setlock fd exclusive 0 filename w = (r, w') ->
  (r = -1 /\ w_enolck w = true /\ w' = set_errno ENOLCK w) \/
  (r = 0 /\ w_enolck w = false /\
   w' = upd_locks (insert fd (if exclusive then BACKUP_LOCK_EXCLUSIVE else BACKUP_LOCK_SHARED))
          (lock_waited_out exclusive w)).
Proof.
  unfold lock_setlock, lock_grant, lock_waited_out. simpl.
  destruct (w_enolck w); intros [= <- <-]; auto.
Qed.

Lemma sys_rename_frame old new (w w' : world P) r :
  sys_rename old new w = (r, w') ->
  w_locks w' = w_locks w /\ w_fds w' = w_fds w /\ w_contention w' = w_contention w /\
  w_waited w' = w_waited w /\ w_enolck w' = w_enolck w /\
  w_dbs w' = w_dbs w /\ w_heap w' = w_heap w /\ w_index_calls w' = w_index_calls w.
Proof.
  unfold sys_rename. intros E.
  repeat case_match; simplify_eq; simpl; auto 10.
Qed.

Lemma sqldb_open_frame fname initsql version upgradesql (w w' : world P) d :
  sqldb_open fname initsql version upgradesql w = (d, w') ->
  w_locks w' = w_locks w /\ w_fds w' = w_fds w /\ w_contention w' = w_contention w /\
  w_waited w' = w_waited w /\ w_enolck w' = w_enolck w /\
  w_heap w' = w_heap w /\ w_errno w' = w_errno w /\ w_index_calls w' = w_index_calls w /\
  w_dbs w' = match d with Some c => c :: w_dbs w | None => w_dbs w end.
Proof.
  unfold sqldb_open. intros E.
  repeat case_match; simplify_eq; simpl; auto 10.
Qed.

(** A successful open, stage by stage. *)
Lemma open_success name lock_type data_mode index_mode (w : world P) r h w' :
  backup_open_internal name lock_type data_mode index_mode w = (r, Some h, w') ->
  let gzname := name +:+ ".gz" in
  let idxname := name +:+ ".index" in
  exists fd w1 w2 w3 d initsql upgradesql old,
    sys_open gzname (open_flags data_mode)
      (alloc idxname (alloc gzname (alloc name (alloc struct_backup w)))) = (fd, w1) /\
    0 <= fd /\
    lock_setlock fd (bool_decide (negotiated_lock lock_type data_mode = BACKUP_LOCK_EXCLUSIVE))
      0 (Some gzname) w1 = (0, w2) /\
    match index_mode with
    | BACKUP_INDEX_READ => w3 = w2 /\ initsql = None /\ upgradesql = None /\ old = None
    | BACKUP_INDEX_WRITE =>
        w3 = w2 /\ initsql = Some backup_index_initsql /\
        upgradesql = Some backup_index_upgrade /\ old = None
    | BACKUP_INDEX_CREATE =>
        (exists r', sys_rename idxname (idxname +:+ ".old") (alloc (idxname +:+ ".old") w2)
                    = (r', w3)) /\
        initsql = Some backup_index_initsql /\
        upgradesql = Some backup_index_upgrade /\ old = Some (idxname +:+ ".old")
    end /\
    sqldb_open idxname initsql backup_index_version upgradesql w3 = (Some d, w') /\
    r = 0 /\
    h = {| backup_fd := fd; backup_name := Some name; backup_gzname := Some gzname;
           backup_idxname := Some idxname; backup_oldidxname := old;
           backup_gzuc := None; backup_db := Some d;
           backup_lock := negotiated_lock lock_type data_mode;
           backup_data := data_mode; backup_index := index_mode |}.
Proof.
  intros E gzname idxname. rewrite backup_open_internal_unfold in E. cbv zeta in E.
  fold gzname idxname in E.
  destruct (sys_open gzname _ _) as [fd w1] eqn:Eo.
  destruct (Z.ltb_spec fd 0) as [Hlt|Hge]; [discriminate E|].
  destruct (lock_setlock fd _ 0 _ w1) as [rl w2] eqn:El.
  destruct (Z.eqb_spec rl 0) as [->|Hne]; simpl in E; [|discriminate E].
  unfold backup_open_index, backup_open_error in E.
  destruct index_mode.
  - destruct (sqldb_open idxname None _ None w2) as [[d|] w4] eqn:Es; simplify_eq.
    exists fd, w1, w2, w2, d, None, None, None. repeat split; auto.
  - destruct (sqldb_open idxname _ _ _ w2) as [[d|] w4] eqn:Es; simplify_eq.
    exists fd, w1, w2, w2, d, (Some backup_index_initsql), (Some backup_index_upgrade), None.
    repeat split; auto.
  - destruct (sys_rename idxname _ _) as [rr w3] eqn:Er.
    destruct (negb (rr =? 0) && negb (w_errno w3 =? ENOENT)); [discriminate E|].
    destruct (sqldb_open idxname _ _ _ w3) as [[d|] w4] eqn:Es; simplify_eq.
    exists fd, w1, w2, w3, d, (Some backup_index_initsql), (Some backup_index_upgrade),
      (Some (idxname +:+ ".old")).
    repeat split; eauto.
Qed.

(** What a handle that was opened records, and the lock it holds. *)
Lemma open_handle name lock_type data_mode index_mode (w : world P) r h w' :
  backup_open_internal name lock_type data_mode index_mode w = (r, Some h, w') ->
  r = 0 /\
  backup_data h = data_mode /\ backup_index h = index_mode /\
  backup_lock h = negotiated_lock lock_type data_mode /\
  w_locks w' !! backup_fd h = Some (negotiated_lock lock_type data_mode).
Proof.
  intros E.
  destruct (open_success _ _ _ _ _ _ _ _ E)
    as (fd & w1 & w2 & w3 & d & ini & upg & old & Eo & Hfd & El & Hi & Es & -> & ->).
  simpl. repeat split.
  apply sqldb_open_frame in Es as (-> & _).
  assert (w_locks w3 = w_locks w2) as ->.
  { destruct index_mode; try (destruct Hi as (-> & _); reflexivity).
    destruct Hi as ((r' & Er) & _). now apply sys_rename_frame in Er as (-> & _). }
  apply lock_setlock_blocking in El as [(? & _)|(_ & _ & ->)]; [discriminate|].
  simpl. rewrite lookup_insert_eq. f_equal. apply lock_of_exclusive.
Qed.

(** C8: a handle opened with the data mode APPEND or CREATE holds an
    EXCLUSIVE lock whatever lock type was asked for, and every handle
    records the data mode and the index mode it was opened with. *)
Theorem open_forces_exclusive name lock_type data_mode index_mode (w : world P) r h w' :
  backup_open_internal name lock_type data_mode index_mode w = (r, Some h, w') ->
  (backup_data h = data_mode /\ backup_index h = index_mode) /\
  (data_mode = BACKUP_DATA_APPEND \/ data_mode = BACKUP_DATA_CREATE ->
   backup_lock h = BACKUP_LOCK_EXCLUSIVE /\
   w_locks w' !! backup_fd h = Some BACKUP_LOCK_EXCLUSIVE).
Proof.
  intros E. destruct (open_handle _ _ _ _ _ _ _ _ E) as (_ & Hd & Hi & Hl & Hw).
  split; [split; assumption|].
  intros [-> | ->]; split; assumption.
Qed.

(** The code at the label [error]: it returns [r], leaves [*backupp]
    alone, and touches neither the files nor the clock. *)
Lemma open_error_frame (b : backup) r (w : world P) :
  exists w',
    backup_open_error b r w = (r, None, w') /\
    w_files w' = w_files w /\ w_contention w' = w_contention w /\
    w_waited w' = w_waited w /\ w_errno w' = w_errno w /\
    w_index_calls w' = w_index_calls w /\
    w_locks w' =
      (let locks := if negb (lock_type_val (backup_lock b) =? 0)
                    then delete (backup_fd b) (w_locks w) else w_locks w in
       if backup_fd b >=? 0 then delete (backup_fd b) locks else locks).
Proof.
  unfold backup_open_error. eexists. split; [reflexivity|].
  destruct (negb (lock_type_val (backup_lock b) =? 0)), (backup_fd b >=? 0),
    (backup_name b), (backup_gzname b), (backup_idxname b), (backup_oldidxname b),
    (backup_db b); simpl; auto 10.
Qed.

(** With a SHARED lock recorded in the handle, the code at [error] does
    not call [lock_unlock], the test of [backup->lock_type] reading 0; the
    lock goes with the [close] of the descriptor. *)
Lemma open_error_drops_lock (b : backup) r (w : world P) :
  0 <= backup_fd b ->
  w_locks (backup_open_error b r w).2 = delete (backup_fd b) (w_locks w).
Proof.
  intros Hfd. destruct (open_error_frame b r w) as (w' & E & _ & _ & _ & _ & _ & Hl).
  rewrite E. simpl. rewrite Hl.
  destruct (Z.geb_spec (backup_fd b) 0) as [_|]; [|lia].
  destruct (negb (lock_type_val (backup_lock b) =? 0)); simpl.
  - apply map_eq. intros k. destruct (decide (k = backup_fd b)) as [->|Hne].
    + now rewrite !lookup_delete_eq.
    + now rewrite !lookup_delete_ne by congruence.
  - reflexivity.
Qed.

Ltac by_error_frame E :=
  match type of E with
  | backup_open_error ?b ?r ?w = _ =>
      let wx := fresh "wx" in
      let Ex := fresh "Ex" in
      let Hwx := fresh "Hwx" in
      let Hex := fresh "Hex" in
      destruct (open_error_frame b r w) as (wx & Ex & _ & _ & Hwx & Hex & _);
      rewrite Ex in E; injection E as <- <- <-; rewrite Hwx, Hex
  end.

(** The errors of [rename] other than that of a missing file. *)
Lemma rename_error_errno (f : file P) target e :
  rename_error f target = Some e -> e <> 0 /\ e <> ENOENT.
Proof.
  unfold rename_error. intros E.
  repeat case_match; simplify_eq; split; discriminate.
Qed.

(** An open that fails returns a code other than [0]. *)
Lemma open_failure name lock_type data_mode index_mode (w : world P) r w' :
  backup_open_internal name lock_type data_mode index_mode w = (r, None, w') -> r <> 0.
Proof.
  intros E. rewrite backup_open_internal_unfold in E. cbv zeta in E.
  destruct (sys_open _ _ _) as [fd w1] eqn:Eo.
  destruct (Z.ltb_spec fd 0) as [Hlt|Hge].
  { destruct (open_error_frame (set_fd fd (set_names name (name +:+ ".gz")
        (name +:+ ".index") (set_fd (-1) backup_zero))) (w_errno w1) w1) as (w2 & E2 & _).
    rewrite E2 in E. injection E as <- _.
    unfold sys_open, new_fd in Eo.
    pose proof (lowest_free_ge (w_fds (alloc (name +:+ ".index") (alloc (name +:+ ".gz")
      (alloc name (alloc struct_backup w))))) (size (w_fds w)) 0) as Hfree.
    simpl in Hfree, Eo.
    repeat case_match; simplify_eq; simpl; try discriminate; lia. }
  destruct (lock_setlock fd _ 0 _ w1) as [rl w2] eqn:El.
  destruct (Z.eqb_spec rl 0) as [->|Hne]; simpl in E.
  2:{ match type of E with
      | backup_open_error ?b ?r ?w = _ =>
          destruct (open_error_frame b r w) as (w3 & E3 & _); rewrite E3 in E
      end.
      injection E as <- _. exact Hne. }
  unfold backup_open_index in E.
  destruct index_mode.
  - destruct (sqldb_open _ None _ None w2) as [[d|] w4]; [discriminate E|].
    match type of E with
    | backup_open_error ?b ?r ?w = _ =>
        destruct (open_error_frame b r w) as (w3 & E3 & _); rewrite E3 in E
    end.
    injection E as <- _. discriminate.
  - destruct (sqldb_open _ _ _ _ w2) as [[d|] w4]; [discriminate E|].
    match type of E with
    | backup_open_error ?b ?r ?w = _ =>
        destruct (open_error_frame b r w) as (w3 & E3 & _); rewrite E3 in E
    end.
    injection E as <- _. discriminate.
  - destruct (sys_rename _ _ _) as [rr w3] eqn:Er.
    destruct (negb (rr =? 0) && negb (w_errno w3 =? ENOENT)) eqn:Hc.
    + match type of E with
      | backup_open_error ?b ?r ?w = _ =>
          destruct (open_error_frame b r w) as (w5 & E5 & _); rewrite E5 in E
      end.
      injection E as <- _.
      apply andb_true_iff in Hc as [Hr He].
      unfold sys_rename in Er.
      repeat case_match; simplify_eq; simpl in *; try discriminate.
      all: match goal with
           | Hr : rename_error _ _ = Some _ |- _ => now apply rename_error_errno in Hr
           end.
    + destruct (sqldb_open _ _ _ _ w3) as [[d|] w4]; [discriminate E|].
      match type of E with
      | backup_open_error ?b ?r ?w = _ =>
          destruct (open_error_frame b r w) as (w5 & E5 & _); rewrite E5 in E
      end.
      injection E as <- _. discriminate.
Qed.

(** C9: [backup_close] returns [-1] and does nothing else.  After it the
    handle of a successful open is what it was: the lock is held, the
    descriptor is open on the log, the index connection is open and the
    paths are allocated. *)
Theorem close_releases_nothing name lock_type data_mode index_mode (w : world P) r h w' :
  backup_open_internal name lock_type data_mode index_mode w = (r, Some h, w') ->
  backup_close (Some h) w' = (-1, Some h, w') /\
  w_locks w' !! backup_fd h = Some (backup_lock h) /\
  w_fds w' !! backup_fd h = Some (name +:+ ".gz") /\
  (exists d, backup_db h = Some d /\ In d (w_dbs w')) /\
  In (name +:+ ".gz") (w_heap w') /\ In (name +:+ ".index") (w_heap w').
Proof.
  intros E. split; [reflexivity|].
  destruct (open_handle _ _ _ _ _ _ _ _ E) as (_ & _ & _ & Hl & Hw).
  split; [congruence|].
  destruct (open_success _ _ _ _ _ _ _ _ E)
    as (fd & w1 & w2 & w3 & d & ini & upg & old & Eo & Hfd & El & Hi & Es & -> & ->).
  simpl.
  pose proof (sqldb_open_frame _ _ _ _ _ _ _ Es) as (_ & Hf4 & _ & _ & _ & Hh4 & _ & _ & Hd4).
  pose proof (sys_open_frame _ _ _ _ _ Eo) as (_ & _ & _ & _ & _ & Hh1 & _).
  destruct (sys_open_result _ _ _ _ _ Eo) as [(? & _)|(_ & Hf1 & _)]; [lia|].
  apply lock_setlock_blocking in El as [(? & _)|(_ & _ & ->)]; [discriminate|].
  assert (w_fds w3 = w_fds w1 /\
          exists pre, w_heap w3 = pre ++ w_heap w1) as (Hf3 & pre & Hh3).
  { destruct index_mode.
    - destruct Hi as (-> & _). split; [reflexivity|]. now exists [].
    - destruct Hi as (-> & _). split; [reflexivity|]. now exists [].
    - destruct Hi as ((r' & Er) & _).
      apply sys_rename_frame in Er as (_ & -> & _ & _ & _ & _ & -> & _).
      split; [reflexivity|]. now exists [(name +:+ ".index") +:+ ".old"]. }
  rewrite Hf4, Hf3, Hf1, lookup_insert_eq. split; [reflexivity|].
  split; [exists d; split; [reflexivity|]; rewrite Hd4; now left|].
  rewrite Hh4, Hh3, Hh1. simpl. split; apply in_or_app; right; simpl; auto.
Qed.

(** The open for reading hands neither the init schema nor the upgrade
    table to the index store: the two play no part in it. *)
Lemma open_read_same (A B : SqlConsts) name lock_type data_mode (w : world P) :
  @backup_index_version A = @backup_index_version B ->
  @backup_open_internal P A name lock_type data_mode BACKUP_INDEX_READ w =
  @backup_open_internal P B name lock_type data_mode BACKUP_INDEX_READ w.
Proof.
  intros Hv. unfold backup_open_internal, backup_open_index. rewrite Hv. reflexivity.
Qed.

(** C7 (amended): on an existing index, an open with the index mode WRITE
    hands the upgrade table to the index store, which runs the steps
    beyond the stored version in the order of the table and stores the
    current version; an open with the index mode READ hands over neither
    the schema nor the table, so that its outcome is the same whatever
    the upgrade steps are.  With either mode an index stored at a newer
    version than the current one makes the open fail. *)
Theorem open_upgrades_index name lock_type data_mode index_mode (w : world P)
    stored r h w' :
  index_mode <> BACKUP_INDEX_CREATE ->
  w_files w !! (name +:+ ".index") = Some (SqlFile stored) ->
  backup_open_internal name lock_type data_mode index_mode w = (r, h, w') ->
  (backup_index_version < stored -> r <> 0 /\ h = None) /\
  (index_mode = BACKUP_INDEX_WRITE -> r = 0 ->
   exists b d,
     h = Some b /\ backup_db b = Some d /\
     db_upgraded d = List.filter (fun u => stored <? upgrade_to u) backup_index_upgrade /\
     w_files w' !! (name +:+ ".index") = Some (SqlFile backup_index_version)) /\
  (index_mode = BACKUP_INDEX_READ ->
   let version := backup_index_version in
   forall other : SqlConsts,
     @backup_index_version other = version ->
     @backup_open_internal P other name lock_type data_mode BACKUP_INDEX_READ w
       = (r, h, w')).
Proof.
  intros Hmode Hidx E.
  assert (forall b, h = Some b ->
            exists d ini upg w3,
              backup_db b = Some d /\
              sqldb_open (name +:+ ".index") ini backup_index_version upg w3 = (Some d, w') /\
              w_files w3 !! (name +:+ ".index") = Some (SqlFile stored) /\
              (index_mode = BACKUP_INDEX_WRITE -> upg = Some backup_index_upgrade))
    as Hopened.
  { intros b ->.
    destruct (open_success _ _ _ _ _ _ _ _ E)
      as (fd & w1 & w2 & w3 & d & ini & upg & old & Eo & Hfd & El & Hi & Es & -> & ->).
    exists d, ini, upg, w3. split; [reflexivity|]. split; [exact Es|]. split.
    - assert (w3 = w2) as -> by (destruct index_mode; tauto).
      apply lock_setlock_blocking in El as [(? & _)|(_ & _ & ->)]; [discriminate|].
      simpl.
      destruct (sys_open_result _ _ _ _ _ Eo) as [(? & _)|(_ & _ & _ & Hq)]; [lia|].
      rewrite Hq; [exact Hidx|]. intros Heq. symmetry in Heq.
      now apply gzname_neq_idxname in Heq.
    - intros ->. tauto. }
  split; [|split].
  - intros Hnew. destruct h as [b|].
    + destruct (Hopened b eq_refl) as (d & ini & upg & w3 & _ & Es & Hidx3 & _).
      unfold sqldb_open in Es. rewrite Hidx3 in Es.
      destruct (Z.ltb_spec backup_index_version stored); [discriminate Es|lia].
    + split; [|reflexivity]. exact (open_failure _ _ _ _ _ _ _ E).
  - intros Hw Hr. destruct h as [b|].
    2:{ now pose proof (open_failure _ _ _ _ _ _ _ E). }
    destruct (Hopened b eq_refl) as (d & ini & upg & w3 & Hd & Es & Hidx3 & Hupg).
    rewrite (Hupg Hw) in Es.
    unfold sqldb_open in Es. rewrite Hidx3 in Es.
    destruct (Z.ltb_spec backup_index_version stored); [discriminate Es|].
    cbv zeta iota in Es. injection Es as <- <-.
    eexists _, _. split; [reflexivity|]. split; [exact Hd|]. split; [reflexivity|].
    simpl. apply lookup_insert_eq.
  - intros -> version other Hv. rewrite <- E. apply open_read_same. exact Hv.
Qed.


(** The lock is free once the blocked instants have gone by. *)
Lemma lock_blocked_drop exclusive (l : list (option backup_lock_type)) :
  lock_blocked exclusive (drop (lock_blocked exclusive l) l) = O.
Proof.
  induction l as [|held l IH]; simpl; [reflexivity|].
  destruct (lock_compatible exclusive held) eqn:Hc; simpl; [now rewrite Hc|exact IH].
Qed.

Lemma sys_open_alloc path flags block (w : world P) :
  sys_open path flags (alloc block w) =
    let '(fd, w1) := sys_open path flags w in (fd, alloc block w1).
Proof. unfold sys_open, new_fd. simpl. repeat case_match; simplify_eq; reflexivity. Qed.

Lemma sys_open_waited_out path flags exclusive (w : world P) :
  sys_open path flags (lock_waited_out exclusive w) =
    let '(fd, w1) := sys_open path flags w in (fd, lock_waited_out exclusive w1).
Proof. unfold sys_open, new_fd. simpl. repeat case_match; simplify_eq; reflexivity. Qed.

Lemma lock_setlock_waited_out fd exclusive filename (w : world P) :
  w_enolck w = false ->
  lock_setlock fd exclusive 0 filename (lock_waited_out exclusive w) =
    lock_setlock fd exclusive 0 filename w.
Proof.
  intros Hk. unfold lock_setlock, lock_grant, lock_waited_out. simpl. rewrite Hk. simpl.
  rewrite lock_blocked_drop, Nat.add_0_r. reflexivity.
Qed.

(** C3 (amended): the lock is requested blocking, with [0] for the
    non-blocking flag.  When the log can be opened and the kernel has a
    lock record to give, an open that finds the lock of the negotiated
    type held by others does not fail with a busy error: it does what it
    would do once the lock is free, after the instants during which the
    request is blocked. *)
Theorem open_waits_for_lock name lock_type data_mode index_mode (w : world P) :
  0 <= (sys_open (name +:+ ".gz") (open_flags data_mode) w).1 ->
  w_enolck w = false ->
  let exclusive := bool_decide (negotiated_lock lock_type data_mode = BACKUP_LOCK_EXCLUSIVE) in
  backup_open_internal name lock_type data_mode index_mode w =
    backup_open_internal name lock_type data_mode index_mode (lock_waited_out exclusive w) /\
  lock_blocked exclusive (w_contention (lock_waited_out exclusive w)) = O /\
  forall r h w',
    backup_open_internal name lock_type data_mode index_mode w = (r, h, w') ->
    w_waited w' = (w_waited w + lock_blocked exclusive (w_contention w))%nat /\
    (w_errno w <> EAGAIN -> w_errno w' <> EAGAIN).
Proof.
  intros Hopen Hk exclusive.
  set (w0 := alloc (name +:+ ".index") (alloc (name +:+ ".gz")
               (alloc name (alloc struct_backup w)))).
  assert (exists fd w1, sys_open (name +:+ ".gz") (open_flags data_mode) w0 = (fd, w1) /\
                        0 <= fd) as (fd & w1 & Eo & Hfd).
  { unfold w0. rewrite !sys_open_alloc.
    destruct (sys_open (name +:+ ".gz") (open_flags data_mode) w) as [fd w1]. simpl in *.
    eauto. }
  pose proof (sys_open_frame _ _ _ _ _ Eo) as (_ & Hc1 & Hw1 & Hk1 & _).
  assert (w_enolck w1 = false) as Hk1' by (rewrite Hk1; exact Hk).
  split; [|split].
  - rewrite !backup_open_internal_unfold. cbv zeta. fold w0.
    change (alloc (name +:+ ".index") (alloc (name +:+ ".gz")
              (alloc name (alloc struct_backup (lock_waited_out exclusive w)))))
      with (lock_waited_out exclusive w0).
    rewrite sys_open_waited_out, Eo.
    destruct (Z.ltb_spec fd 0) as [Hlt|_]; [lia|].
    fold exclusive. rewrite (lock_setlock_waited_out _ _ _ _ Hk1'). reflexivity.
  - unfold lock_waited_out. simpl. apply lock_blocked_drop.
  - intros r h w' E.
    rewrite backup_open_internal_unfold in E. cbv zeta in E. fold w0 exclusive in E.
    rewrite Eo in E.
    destruct (Z.ltb_spec fd 0) as [Hlt|_]; [lia|].
    destruct (lock_setlock fd exclusive 0 _ w1) as [rl w2] eqn:El.
    apply lock_setlock_blocking in El as [(_ & Hk2 & _)|(-> & _ & ->)]; [congruence|].
    simpl in E.
    destruct (sys_open_result _ _ _ _ _ Eo) as [(? & _)|(_ & _ & He1 & _)]; [lia|].
    set (w2 := upd_locks _ (lock_waited_out exclusive w1)) in E.
    assert (w_waited w2 = (w_waited w + lock_blocked exclusive (w_contention w))%nat) as Hw2.
    { unfold w2, lock_waited_out. simpl. rewrite Hc1, Hw1. reflexivity. }
    assert (w_errno w2 = w_errno w) as He2.
    { unfold w2, lock_waited_out. simpl. rewrite He1. reflexivity. }
    clearbody w2. unfold backup_open_index in E.
    destruct index_mode.
    + destruct (sqldb_open _ None _ None w2) as [[d|] w4] eqn:Es;
        apply sqldb_open_frame in Es as (_ & _ & _ & Hw4 & _ & _ & He4 & _).
      * injection E as <- <- <-. rewrite Hw4, He4, Hw2, He2. auto.
      * by_error_frame E. rewrite Hw4, He4, Hw2, He2. auto.
    + destruct (sqldb_open _ _ _ _ w2) as [[d|] w4] eqn:Es;
        apply sqldb_open_frame in Es as (_ & _ & _ & Hw4 & _ & _ & He4 & _).
      * injection E as <- <- <-. rewrite Hw4, He4, Hw2, He2. auto.
      * by_error_frame E. rewrite Hw4, He4, Hw2, He2. auto.
    + destruct (sys_rename _ _ _) as [rr w3] eqn:Er.
      pose proof (sys_rename_frame _ _ _ _ _ Er) as (_ & _ & _ & Hw3 & _).
      assert (w_errno w3 = w_errno w2 \/ w_errno w3 <> EAGAIN) as He3.
      { unfold sys_rename, rename_error in Er.
        repeat case_match; simplify_eq; simpl; auto; right; discriminate. }
      assert (w_errno w <> EAGAIN -> w_errno w3 <> EAGAIN) as He3'.
      { intros Hne. destruct He3 as [->|?]; [congruence|assumption]. }
      simpl in Hw3.
      destruct (negb (rr =? 0) && negb (w_errno w3 =? ENOENT)).
      * by_error_frame E. simpl. rewrite Hw3, Hw2. auto.
      * destruct (sqldb_open _ _ _ _ w3) as [[d|] w4] eqn:Es;
          apply sqldb_open_frame in Es as (_ & _ & _ & Hw4 & _ & _ & He4 & _).
        -- injection E as <- <- <-. rewrite Hw4, He4, Hw3, Hw2. auto.
        -- by_error_frame E. rewrite Hw4, He4, Hw3, Hw2. auto.
Qed.

End Open.

(** ** Opens on the files of the backup "user" *)

Section OpenRuns.

#[local] Existing Instance example_consts.

(** C3 does not hold as it is stated: the lock is held exclusively by
    another process when the open asks for it, and the open does not fail;
    it returns [0] after one instant of waiting and holds the lock. *)
Lemma open_waits_when_locked :
  w_contention (contended_world "user" 3) = [Some BACKUP_LOCK_EXCLUSIVE] /\
  lock_compatible true (Some BACKUP_LOCK_EXCLUSIVE) = false /\
  backup_open_internal "user" BACKUP_LOCK_EXCLUSIVE BACKUP_DATA_NORMAL BACKUP_INDEX_READ
    (contended_world "user" 3) = contended_opened /\
  contended_opened.1.1 = 0 /\
  w_waited contended_opened.2 = 1%nat /\
  w_locks contended_opened.2 !! backup_fd (handle_of contended_opened)
    = Some BACKUP_LOCK_EXCLUSIVE.
Proof. repeat split; vm_compute; reflexivity. Qed.

(** The open of a log that another process holds for one instant. *)
Lemma open_waits_for_lock_witness :
  0 <= (sys_open ("user" +:+ ".gz") (open_flags BACKUP_DATA_NORMAL)
          (contended_world "user" 3)).1 /\
  w_enolck (contended_world "user" 3) = false /\
  backup_open_internal "user" BACKUP_LOCK_EXCLUSIVE BACKUP_DATA_NORMAL BACKUP_INDEX_READ
    (contended_world "user" 3) =
  backup_open_internal "user" BACKUP_LOCK_EXCLUSIVE BACKUP_DATA_NORMAL BACKUP_INDEX_READ
    (lock_waited_out true (contended_world "user" 3)).
Proof.
  assert (0 <= (sys_open ("user" +:+ ".gz") (open_flags BACKUP_DATA_NORMAL)
                  (contended_world "user" 3)).1) as Hopen
    by (vm_compute; discriminate).
  split; [exact Hopen|]. split; [reflexivity|].
  exact (proj1 (open_waits_for_lock "user" BACKUP_LOCK_EXCLUSIVE BACKUP_DATA_NORMAL
                  BACKUP_INDEX_READ (contended_world "user" 3) Hopen eq_refl)).
Defined.

(** C7 does not hold as it is stated: the open for reading of an index
    stored at version 1, two versions behind, under two upgrade tables
    that lead to the same version 3 by different steps.  The two opens
    are one and the same, so that the steps of the table have not been
    applied in both. *)
Lemma open_read_ignores_upgrade_table :
  w_files (index_world "user" [] 1) !! "user.index" = Some (SqlFile 1) /\
  1 < @backup_index_version example_consts /\
  @backup_index_version one_step_consts = @backup_index_version example_consts /\
  ~ (@upgrades_applied string example_consts 1
       (@backup_open_internal string example_consts "user" BACKUP_LOCK_SHARED
          BACKUP_DATA_NORMAL BACKUP_INDEX_READ (index_world "user" [] 1)) /\
     @upgrades_applied string one_step_consts 1
       (@backup_open_internal string one_step_consts "user" BACKUP_LOCK_SHARED
          BACKUP_DATA_NORMAL BACKUP_INDEX_READ (index_world "user" [] 1))).
Proof.
  split; [reflexivity|]. split; [reflexivity|]. split; [reflexivity|].
  rewrite (open_read_same one_step_consts example_consts "user" BACKUP_LOCK_SHARED
             BACKUP_DATA_NORMAL (index_world "user" [] 1) eq_refl).
  intros [(b & d & Hb & Hd & Hu) (b' & d' & Hb' & Hd' & Hu')].
  rewrite Hb in Hb'. injection Hb' as <-. rewrite Hd in Hd'. injection Hd' as <-.
  rewrite Hu in Hu'. discriminate Hu'.
Qed.

(** An open for writing on an index stored at version 1. *)
Lemma open_upgrades_index_witness :
  BACKUP_INDEX_WRITE <> BACKUP_INDEX_CREATE /\
  w_files (index_world "user" [] 1) !! ("user" +:+ ".index") = Some (SqlFile 1) /\
  backup_open_internal "user" BACKUP_LOCK_EXCLUSIVE BACKUP_DATA_NORMAL BACKUP_INDEX_WRITE
    (index_world "user" [] 1) = write_opened /\
  (BACKUP_INDEX_WRITE = BACKUP_INDEX_WRITE -> write_opened.1.1 = 0 ->
   exists b d,
     write_opened.1.2 = Some b /\ backup_db b = Some d /\
     db_upgraded d = List.filter (fun u => 1 <? upgrade_to u) backup_index_upgrade /\
     w_files write_opened.2 !! ("user" +:+ ".index") = Some (SqlFile backup_index_version)).
Proof.
  assert (backup_open_internal "user" BACKUP_LOCK_EXCLUSIVE BACKUP_DATA_NORMAL
            BACKUP_INDEX_WRITE (index_world "user" [] 1) = write_opened) as E
    by (vm_compute; reflexivity).
  split; [discriminate|]. split; [reflexivity|]. split; [exact E|].
  exact (proj1 (proj2 (open_upgrades_index "user" BACKUP_LOCK_EXCLUSIVE
                         BACKUP_DATA_NORMAL BACKUP_INDEX_WRITE (index_world "user" [] 1) 1
                         write_opened.1.1 write_opened.1.2 write_opened.2
                         ltac:(discriminate) eq_refl E))).
Defined.

(** An open for appending that asked for a SHARED lock. *)
Lemma open_forces_exclusive_witness :
  backup_open_internal "user" BACKUP_LOCK_SHARED BACKUP_DATA_APPEND BACKUP_INDEX_WRITE
    (contended_world "user" 3) =
    (append_opened.1.1, Some (handle_of append_opened), append_opened.2) /\
  backup_lock (handle_of append_opened) = BACKUP_LOCK_EXCLUSIVE /\
  w_locks append_opened.2 !! backup_fd (handle_of append_opened)
    = Some BACKUP_LOCK_EXCLUSIVE.
Proof.
  assert (backup_open_internal "user" BACKUP_LOCK_SHARED BACKUP_DATA_APPEND
            BACKUP_INDEX_WRITE (contended_world "user" 3) =
          (append_opened.1.1, Some (handle_of append_opened), append_opened.2)) as E
    by (vm_compute; reflexivity).
  split; [exact E|].
  exact (proj2 (open_forces_exclusive "user" BACKUP_LOCK_SHARED BACKUP_DATA_APPEND
                  BACKUP_INDEX_WRITE (contended_world "user" 3) _ _ _ E)
           (or_introl eq_refl)).
Defined.

(** The handle of an open for writing, handed to [backup_close]. *)
Lemma close_releases_nothing_witness :
  backup_open_internal "user" BACKUP_LOCK_EXCLUSIVE BACKUP_DATA_NORMAL BACKUP_INDEX_WRITE
    (index_world "user" [] 1) =
    (write_opened.1.1, Some (handle_of write_opened), write_opened.2) /\
  backup_close (Some (handle_of write_opened)) write_opened.2 =
    (-1, Some (handle_of write_opened), write_opened.2) /\
  w_locks write_opened.2 !! backup_fd (handle_of write_opened)
    = Some (backup_lock (handle_of write_opened)) /\
  w_fds write_opened.2 !! backup_fd (handle_of write_opened) = Some ("user" +:+ ".gz") /\
  (exists d, backup_db (handle_of write_opened) = Some d /\ In d (w_dbs write_opened.2)) /\
  In ("user" +:+ ".gz") (w_heap write_opened.2) /\
  In ("user" +:+ ".index") (w_heap write_opened.2).
Proof.
  assert (backup_open_internal "user" BACKUP_LOCK_EXCLUSIVE BACKUP_DATA_NORMAL
            BACKUP_INDEX_WRITE (index_world "user" [] 1) =
          (write_opened.1.1, Some (handle_of write_opened), write_opened.2)) as E
    by (vm_compute; reflexivity).
  split; [exact E|].
  exact (close_releases_nothing "user" BACKUP_LOCK_EXCLUSIVE BACKUP_DATA_NORMAL
           BACKUP_INDEX_WRITE (index_world "user" [] 1) _ _ _ E).
Defined.

End OpenRuns.

(** ** The reindexer comes to an end on the bytes of a log *)

Section Termination.

#[local] Existing Instance Bytes.codec.

Lemma chr_not_EOF a : (chr a =? EOF) = false.
Proof. apply Z.eqb_neq. pose proof (chr_nonneg a). unfold EOF. lia. Qed.

Lemma getc_pending s c s' : Bytes.getc s = (c, s') -> pending c s' = String.length s.
Proof.
  destruct s as [|a s0]; simpl; intros [= <- <-]; unfold pending.
  - reflexivity.
  - rewrite chr_not_EOF. simpl. lia.
Qed.

Lemma ungetc_length c s : String.length (Bytes.ungetc c s) = pending c s.
Proof. unfold Bytes.ungetc, pending. destruct (c =? EOF); simpl; lia. Qed.

Lemma skip_line_length s : (String.length (Bytes.skip_line s) <= String.length s)%nat.
Proof. induction s as [|a s IH]; simpl; [lia|]. destruct (Ascii.eqb a LF); simpl; lia. Qed.

Lemma eatline_length s c : (String.length (Bytes.eatline s c) <= String.length s)%nat.
Proof.
  unfold Bytes.eatline. destruct ((c =? chr LF) || (c =? EOF)); [lia|apply skip_line_length].
Qed.

Lemma read_digits_pending s : forall acc got c n got' rest,
  Bytes.read_digits s acc got = (c, n, got', rest) -> (pending c rest <= String.length s)%nat.
Proof.
  induction s as [|a s IH]; simpl; intros acc got c n got' rest E.
  - injection E as <- _ _ <-. unfold pending. simpl. lia.
  - destruct (Bytes.is_digit (chr a)).
    + apply IH in E. lia.
    + injection E as <- _ _ <-. unfold pending. rewrite chr_not_EOF. simpl. lia.
Qed.

Lemma getint64_length s c t s' :
  Bytes.getint64 s = (c, t, s') -> c <> EOF -> (String.length s' < String.length s)%nat.
Proof.
  intros E Hc. apply Z.eqb_neq in Hc.
  assert (forall s0 c0 n got rest, Bytes.read_digits s0 0 false = (c0, n, got, rest) ->
            c0 = c -> rest = s' -> (String.length s' < String.length s0)%nat) as Hd.
  { intros s0 c0 n got rest Er -> ->. apply read_digits_pending in Er.
    unfold pending in Er. rewrite Hc in Er. lia. }
  unfold Bytes.getint64 in E.
  destruct s as [|a s0].
  - simpl in E. injection E as <- _ _. discriminate.
  - destruct (Bytes.read_digits (String a s0) 0 false) as [[[c1 n1] g1] r1] eqn:E1.
    destruct (Bytes.read_digits s0 0 false) as [[[c2 n2] g2] r2] eqn:E2.
    destruct (Ascii.eqb_spec a "-"%char) as [->|Hne].
    + destruct g2; injection E as <- _ <-; [|discriminate].
      pose proof (Hd _ _ _ _ _ E2 eq_refl eq_refl). simpl. lia.
    + assert ((if g1 then (c1, n1, r1) else (EOF, 0, Bytes.ungetc c1 r1)) = (c, t, s')) as E'.
      { destruct a as [[] [] [] [] [] [] [] []]; try exact E. contradiction. }
      destruct g1; injection E' as <- _ <-; [|discriminate].
      pose proof (Hd _ _ _ _ _ E1 eq_refl eq_refl). simpl in *. lia.
Qed.

Lemma getword_pending s : forall c w rest,
  Bytes.getword s = (c, w, rest) -> (pending c rest <= String.length s)%nat.
Proof.
  induction s as [|a s IH]; simpl; intros c w rest E.
  - injection E as <- _ <-. unfold pending. simpl. lia.
  - destruct (Bytes.ends_word (chr a)).
    + injection E as <- _ <-. unfold pending. rewrite chr_not_EOF. simpl. lia.
    + destruct (Bytes.getword s) as [[c1 w1] r1]. injection E as <- _ <-.
      specialize (IH _ _ _ eq_refl). lia.
Qed.

Lemma next_nonspace_pending s : forall c c' s',
  Bytes.next_nonspace s c = (c', s') -> (pending c' s' <= pending c s)%nat.
Proof.
  induction s as [|a s IH]; intros c c' s' E; simpl in E.
  - destruct (Bytes.is_space c); injection E as <- <-; unfold pending; simpl; lia.
  - destruct (Bytes.is_space c) eqn:Hs.
    + apply IH in E. unfold pending in *. rewrite chr_not_EOF in E.
      simpl. destruct (c =? EOF); lia.
    + injection E as <- <-. lia.
Qed.

Lemma parse_items_pending fuel :
  (forall parsekey s c dl s',
     Bytes.parse fuel parsekey s = (c, dl, s') -> (pending c s' <= String.length s)%nat) /\
  (forall c s l s',
     Bytes.items fuel c s = Some (l, s') -> (String.length s' <= pending c s)%nat).
Proof.
  induction fuel as [|fuel [IHp IHi]].
  - split; simpl.
    + intros _ s c dl s' [= <- _ <-]. unfold pending. simpl. lia.
    + discriminate.
  - split.
    + intros parsekey s c dl s' E. simpl in E.
      assert (exists c2 key s2,
                (if parsekey
                 then let '(c, k, s) := Bytes.getword s in
                      let '(c, s) := Bytes.next_nonspace s c in (c, k, s)
                 else let '(c, s) := Bytes.getc s in (c, EmptyString, s)) = (c2, key, s2) /\
                (pending c2 s2 <= String.length s)%nat) as (c2 & key & s2 & E2 & H2).
      { destruct parsekey.
        - destruct (Bytes.getword s) as [[c1 k1] s1] eqn:Ew.
          destruct (Bytes.next_nonspace s1 c1) as [c2 s2] eqn:En.
          exists c2, k1, s2. split; [reflexivity|].
          apply getword_pending in Ew. apply next_nonspace_pending in En. lia.
        - destruct (Bytes.getc s) as [c2 s2] eqn:Eg.
          exists c2, EmptyString, s2. split; [reflexivity|].
          apply getc_pending in Eg. lia. }
      rewrite E2 in E. clear E2.
      destruct (Z.eqb_spec c2 EOF) as [->|Hc2].
      { injection E as <- _ <-. unfold pending in *. simpl in *. lia. }
      assert (pending c2 s2 = S (String.length s2)) as Hp2.
      { unfold pending. apply Z.eqb_neq in Hc2. rewrite Hc2. lia. }
      destruct (c2 =? 40).
      * destruct (Bytes.next_nonspace s2 32) as [c3 s3] eqn:En.
        apply next_nonspace_pending in En.
        assert (pending 32 s2 = S (String.length s2)) as Hp3 by (unfold pending; simpl; lia).
        destruct (Bytes.items fuel c3 s3) as [[l s4]|] eqn:Ei.
        -- apply IHi in Ei. destruct (Bytes.getc s4) as [c5 s5] eqn:Eg.
           apply getc_pending in Eg. injection E as <- _ <-. lia.
        -- injection E as <- _ <-. unfold pending in *. simpl.
           destruct (c3 =? EOF); lia.
      * destruct (Bytes.getword (Bytes.ungetc c2 s2)) as [[c6 v] s6] eqn:Ew.
        apply getword_pending in Ew. rewrite ungetc_length in Ew.
        injection E as <- _ <-. lia.
    + intros c s l s' E. simpl in E.
      destruct (c =? 41).
      { injection E as _ <-. unfold pending. lia. }
      destruct (Bytes.parse fuel false (Bytes.ungetc c s)) as [[c1 di] s1] eqn:Ep.
      apply IHp in Ep. rewrite ungetc_length in Ep.
      destruct (Bytes.next_nonspace s1 c1) as [c2 s2] eqn:En.
      apply next_nonspace_pending in En.
      destruct (c2 =? EOF); [discriminate|].
      destruct (Bytes.items fuel c2 s2) as [[l3 s3]|] eqn:Ei; [|discriminate].
      apply IHi in Ei. injection E as _ <-. lia.
Qed.

Lemma dlist_parse_length flags s c dl s' :
  Bytes.dlist_parse flags s = (c, dl, s') -> (String.length s' <= String.length s)%nat.
Proof.
  unfold Bytes.dlist_parse. intros E.
  apply (proj1 (parse_items_pending _)) in E. unfold pending in E. lia.
Qed.

(** A command that does not end in [EOF] has used up bytes. *)
Lemma parse_command_consumes (s s' : string) c out :
  backup_parse_command s = (c, out, s') -> c <> EOF ->
  (String.length s' < String.length s)%nat.
Proof.
  unfold backup_parse_command.
  cbn [prot_getc prot_ungetc eatline getint64 getword dlist_parse Bytes.codec].
  intros E Hc.
  destruct (Bytes.getc s) as [c0 s0] eqn:Eg. apply getc_pending in Eg.
  set (i1 := if c0 =? chr "#" then Bytes.eatline s0 c0 else Bytes.ungetc c0 s0) in E.
  assert (String.length i1 <= String.length s)%nat as H1.
  { unfold i1. destruct (c0 =? chr "#").
    - pose proof (eatline_length s0 c0). unfold pending in Eg. lia.
    - rewrite ungetc_length. lia. }
  clearbody i1.
  destruct (Bytes.getint64 i1) as [[c1 t] i2] eqn:Ei.
  destruct (Z.eqb_spec c1 EOF) as [->|Hc1]; [injection E as <- _ _; contradiction|].
  apply getint64_length in Ei; [|exact Hc1].
  destruct (Bytes.getword i2) as [[c2 buf] i3] eqn:Ew. apply getword_pending in Ew.
  assert (String.length i3 <= String.length i2)%nat as H3 by (unfold pending in Ew; lia).
  destruct (Z.eqb_spec c2 EOF) as [->|_]; [injection E as <- _ _; contradiction|].
  destruct (Bytes.dlist_parse _ i3) as [[c3 dl] i4] eqn:Ed. apply dlist_parse_length in Ed.
  destruct dl as [dl|]; [|injection E as _ _ <-; lia].
  assert (exists c5 i5, (if c3 =? chr CR then Bytes.getc i4 else (c3, i4)) = (c5, i5) /\
                        (String.length i5 <= String.length i4)%nat) as (c5 & i5 & E5 & H5).
  { destruct (c3 =? chr CR).
    - destruct (Bytes.getc i4) as [c5 i5] eqn:Eg5. exists c5, i5. split; [reflexivity|].
      apply getc_pending in Eg5. unfold pending in Eg5. lia.
    - exists c3, i4. split; [reflexivity|lia]. }
  rewrite E5 in E.
  destruct (negb (c5 =? chr LF)); injection E as _ _ <-.
  - pose proof (eatline_length i5 c5). lia.
  - lia.
Qed.

Lemma reindex_iteration_next indet b member_ts r (member member' : string) w
    member_ts' r' w' :
  reindex_iteration indet b member_ts r member w = IterNext member_ts' r' member' w' ->
  exists c out, backup_parse_command member = (c, out, member') /\ c <> EOF.
Proof.
  unfold reindex_iteration.
  destruct (backup_parse_command member) as [[c out] m0].
  destruct (Z.eqb_spec c EOF) as [->|Hc]; [discriminate|].
  intros E. exists c, out. split; [|exact Hc].
  repeat case_match; simplify_eq; reflexivity.
Qed.

(** The loop over a member ends within as many turns as the member has
    bytes, and one more. *)
Lemma reindex_member_terminates indet b fuel :
  forall (member : string) member_ts r w,
    (String.length member < fuel)%nat ->
    exists res, reindex_member indet fuel b member_ts r member w = Some res.
Proof.
  induction fuel as [|fuel IH]; intros member member_ts r w Hlen; [lia|].
  simpl.
  destruct (reindex_iteration indet b member_ts r member w)
    as [m'|msg| |member_ts' r' m' w'] eqn:Ei; eauto.
  apply reindex_iteration_next in Ei as (c & out & Ep & Hc).
  apply parse_command_consumes in Ep; [|exact Hc].
  apply IH. lia.
Qed.

Lemma reindex_members_terminates indet b fuel :
  forall (gzuc : list string) r w,
    Forall (fun member => (String.length member < fuel)%nat) gzuc ->
    exists res, reindex_members indet fuel b gzuc r w = Some res.
Proof.
  induction gzuc as [|member gzuc IH]; intros r w Hall; simpl; [eauto|].
  apply Forall_cons in Hall as [Hm Hall].
  destruct (reindex_member_terminates indet b fuel member (-1) r w Hm) as [res ->].
  destruct res; eauto.
Qed.

End Termination.

(** ** More on opening a handle *)

Section OpenMore.

Context {P : Type} `{SqlConsts}.

(** The descriptor that [open] returns was not open. *)
Lemma lowest_free_ext (m1 m2 : gmap Z string) n : forall k,
  (forall j, k <= j -> m1 !! j = m2 !! j) ->
  lowest_free m1 n k = lowest_free m2 n k.
Proof.
  induction n as [|n IH]; intros k Hext; simpl; [reflexivity|].
  rewrite <- (Hext k) by lia. destruct (m1 !! k); [|reflexivity].
  apply IH. intros j Hj. apply Hext. lia.
Qed.

Lemma lowest_free_fresh n : forall (fds : gmap Z string) k,
  (size fds <= n)%nat -> fds !! lowest_free fds n k = None.
Proof.
  induction n as [|n IH]; intros fds k Hsize; simpl.
  - assert (fds = ∅) as -> by (apply map_size_empty_inv; lia). apply lookup_empty.
  - destruct (fds !! k) as [x|] eqn:Hk; [|exact Hk].
    rewrite (lowest_free_ext fds (delete k fds) n (k + 1)).
    2:{ intros j Hj. rewrite lookup_delete_ne by lia. reflexivity. }
    pose proof (lowest_free_ge (delete k fds) n (k + 1)) as Hge.
    rewrite <- (lookup_delete_ne fds k) by lia.
    apply IH. rewrite map_size_delete, Hk. simpl. lia.
Qed.

Lemma sys_open_fresh path flags (w w' : world P) fd :
  sys_open path flags w = (fd, w') -> 0 <= fd -> w_fds w !! fd = None.
Proof.
  unfold sys_open, new_fd. intros E Hfd.
  repeat case_match; simplify_eq; simpl; try lia.
  all: apply lowest_free_fresh; lia.
Qed.

(** Paths that differ. *)
Lemma append_nil_r (s : string) : s +:+ EmptyString = s.
Proof.
  induction s as [|a s IH]; [reflexivity|].
  change (String a (s +:+ EmptyString) = String a s). now rewrite IH.
Qed.

Lemma append_assoc (s t u : string) : (s +:+ t) +:+ u = s +:+ (t +:+ u).
Proof.
  induction s as [|a s IH]; [reflexivity|].
  change (String a ((s +:+ t) +:+ u) = String a (s +:+ (t +:+ u))). now rewrite IH.
Qed.

Lemma append_neq_self (s t : string) : t <> EmptyString -> s +:+ t <> s.
Proof.
  intros Ht E. apply Ht. apply (String.app_inj s). now rewrite append_nil_r.
Qed.

Lemma gzname_neq_oldidxname (name : string) :
  name +:+ ".gz" <> (name +:+ ".index") +:+ ".old".
Proof. induction name as [|a name IH]; simpl; [discriminate|]. intros [= E]. auto. Qed.




(** The paths of [backup_open_internal], one goal for each. *)
Ltac open_inv E :=
  rewrite backup_open_internal_unfold in E; cbv zeta in E;
  match type of E with
  | context [sys_open ?p ?f ?w0] =>
      let fd := fresh "fd" in
      let w1 := fresh "w1" in
      let Eo := fresh "Eo" in
      destruct (sys_open p f w0) as [fd w1] eqn:Eo
  end;
  match type of E with
  | context [?fd <? 0] =>
      let Hfd := fresh "Hfd" in
      destruct (Z.ltb_spec fd 0) as [Hfd|Hfd]
  end;
  [ | match type of E with
      | context [lock_setlock ?fd ?e 0 ?f ?w1] =>
          let rl := fresh "rl" in
          let w2 := fresh "w2" in
          let El := fresh "El" in
          destruct (lock_setlock fd e 0 f w1) as [rl w2] eqn:El
      end;
      match type of E with
      | context [negb (?rl =? 0)] =>
          let Hrl := fresh "Hrl" in
          destruct (Z.eqb_spec rl 0) as [Hrl|Hrl]; [subst rl|]; simpl negb in E; cbv iota in E
      end;
      [ unfold backup_open_index in E;
        match type of E with
        | context [match ?im with BACKUP_INDEX_READ => _ | _ => _ end] => destruct im
        end;
        [ | | match type of E with
              | context [sys_rename ?a ?b ?w] =>
                  let rr := fresh "rr" in
                  let w3 := fresh "w3" in
                  let Er := fresh "Er" in
                  destruct (sys_rename a b w) as [rr w3] eqn:Er
              end;
              match type of E with
              | context [if ?c then _ else _] =>
                  let Hc := fresh "Hc" in destruct c eqn:Hc
              end ];
        try match type of E with
            | context [sqldb_open ?a ?b ?c ?d ?w] =>
                let db := fresh "db" in
                let w4 := fresh "w4" in
                let Es := fresh "Es" in
                destruct (sqldb_open a b c d w) as [[db|] w4] eqn:Es
            end
      | ] ].



(** X3: an open that fails once the lock it settled on is EXCLUSIVE
    leaves the lock table as it found it. *)
Theorem open_failure_releases_exclusive name lock_type data_mode index_mode (w : world P)
    r w' :
  negotiated_lock lock_type data_mode = BACKUP_LOCK_EXCLUSIVE ->
  locks_on_open_fds w ->
  backup_open_internal name lock_type data_mode index_mode w = (r, None, w') ->
  w_locks w' = w_locks w.
Proof.
  intros Hx Hwf E. open_inv E; try discriminate E.
  all: pose proof (sys_open_frame _ _ _ _ _ Eo) as (Hl1 & _); simpl in Hl1.
  all: match type of E with
       | backup_open_error ?b ?r0 ?wx = _ =>
           destruct (open_error_frame b r0 wx) as (wy & Ey & _ & _ & _ & _ & _ & Hly);
           rewrite Ey in E; injection E as _ <-; rewrite Hly; clear Hly Ey
       end.
  1:{ simpl. destruct (Z.geb_spec fd 0) as [?|_]; [lia|]. exact Hl1. }
  all: pose proof (sys_open_fresh _ _ _ _ _ Eo Hfd) as Hfresh; simpl in Hfresh;
       apply Hwf in Hfresh;
       apply lock_setlock_blocking in El as [(? & _ & ->)|(? & _ & ->)];
       try congruence.
  all: try (pose proof (sys_rename_frame _ _ _ _ _ Er) as (Hl3 & _); simpl in Hl3).
  all: try (pose proof (sqldb_open_frame _ _ _ _ _ _ _ Es) as (Hl4 & _)).
  all: simpl backup_lock; simpl backup_fd; rewrite ?Hx; simpl negb; cbv iota zeta.
  all: destruct (Z.geb_spec fd 0) as [_|?]; [|lia].
  all: unfold free; simpl w_locks; rewrite ?Hl4, ?Hl3; simpl w_locks; rewrite ?Hl1.
  all: rewrite ?delete_insert_eq, ?(delete_id (w_locks w) fd Hfresh).
  all: rewrite ?(delete_id (w_locks w) fd Hfresh); reflexivity.
Qed.


(** X1: [backup_open_internal] returns [0] exactly when it stores a
    handle. *)
Theorem open_returns_zero_iff_handle name lock_type data_mode index_mode (w : world P)
    r h w' :
  backup_open_internal name lock_type data_mode index_mode w = (r, h, w') ->
  (r = 0 <-> exists b, h = Some b).
Proof.
  intros E. destruct h as [b|].
  - destruct (open_handle _ _ _ _ _ _ _ _ E) as (-> & _). split; eauto.
  - pose proof (open_failure _ _ _ _ _ _ _ E). split; [contradiction|].
    intros [b Hb]. discriminate.
Qed.

(** The open of a log that is missing, in a mode that does not create
    it. *)
Lemma open_log_missing name lock_type data_mode index_mode (w : world P) r h w' :
  backup_open_internal name lock_type data_mode index_mode w = (r, h, w') ->
  data_mode <> BACKUP_DATA_CREATE -> w_files w !! (name +:+ ".gz") = None ->
  r = ENOENT /\ h = None /\ w_files w' = w_files w.
Proof.
  intros E Hdm Hgz.
  rewrite backup_open_internal_unfold in E. cbv zeta in E.
  assert (sys_open (name +:+ ".gz") (open_flags data_mode)
            (alloc (name +:+ ".index") (alloc (name +:+ ".gz")
               (alloc name (alloc struct_backup w)))) =
          (-1, set_errno ENOENT (alloc (name +:+ ".index") (alloc (name +:+ ".gz")
               (alloc name (alloc struct_backup w)))))) as Eo.
  { unfold sys_open. simpl w_files. rewrite Hgz.
    destruct data_mode; [reflexivity|reflexivity|contradiction]. }
  rewrite Eo in E. change (-1 <? 0) with true in E. cbv iota in E.
  match type of E with
  | backup_open_error ?b ?r0 ?wx = _ =>
      destruct (open_error_frame b r0 wx) as (wy & Ey & Hfy & _);
      rewrite Ey in E; injection E as <- <- <-
  end.
  rewrite Hfy. auto.
Qed.

(** X4: the error of [open] is what [backup_open_internal] returns: a log
    that is missing when it is to be read or appended to gives [ENOENT], a
    log that exists when it is to be created gives [EEXIST]; no handle is
    stored and no file is touched. *)
Theorem open_log_errors name lock_type data_mode index_mode (w : world P) r h w' :
  backup_open_internal name lock_type data_mode index_mode w = (r, h, w') ->
  (data_mode <> BACKUP_DATA_CREATE -> w_files w !! (name +:+ ".gz") = None ->
   r = ENOENT /\ h = None /\ w_files w' = w_files w) /\
  (data_mode = BACKUP_DATA_CREATE -> is_Some (w_files w !! (name +:+ ".gz")) ->
   r = EEXIST /\ h = None /\ w_files w' = w_files w).
Proof.
  intros E. split; [exact (open_log_missing _ _ _ _ _ _ _ _ E)|].
  rewrite backup_open_internal_unfold in E. cbv zeta in E.
  intros -> [f Hgz].
  assert (sys_open (name +:+ ".gz") (open_flags BACKUP_DATA_CREATE)
            (alloc (name +:+ ".index") (alloc (name +:+ ".gz")
               (alloc name (alloc struct_backup w)))) =
          (-1, set_errno EEXIST (alloc (name +:+ ".index") (alloc (name +:+ ".gz")
               (alloc name (alloc struct_backup w)))))) as Eo.
  { unfold sys_open. simpl w_files. rewrite Hgz. reflexivity. }
  rewrite Eo in E. change (-1 <? 0) with true in E. cbv iota in E.
  match type of E with
  | backup_open_error ?b ?r0 ?wx = _ =>
      destruct (open_error_frame b r0 wx) as (wy & Ey & Hfy & _);
      rewrite Ey in E; injection E as <- <- <-
  end.
  rewrite Hfy. auto.
Qed.

(** X5: with the index mode CREATE the index that exists is kept under
    the name with the suffix [.old], and the index of the handle is a new
    one at the current version, on which no upgrade step has run. *)
Theorem open_create_moves_index_aside name lock_type data_mode index_mode (w : world P)
    f r b w' :
  index_mode = BACKUP_INDEX_CREATE ->
  w_files w !! (name +:+ ".index") = Some f ->
  backup_open_internal name lock_type data_mode index_mode w = (r, Some b, w') ->
  w_files w' !! ((name +:+ ".index") +:+ ".old") = Some f /\
  w_files w' !! (name +:+ ".index") = Some (SqlFile backup_index_version) /\
  backup_oldidxname b = Some ((name +:+ ".index") +:+ ".old") /\
  backup_db b = Some {| db_fname := name +:+ ".index"; db_version := backup_index_version;
                        db_upgraded := [] |}.
Proof.
  intros Him Hidx E. open_inv E; try discriminate E; try discriminate Him.
  destruct (sys_open_result _ _ _ _ _ Eo) as [(? & _)|(_ & _ & _ & Hq)]; [lia|].
  assert (w_files w1 !! (name +:+ ".index") = Some f) as Hidx1.
  { rewrite Hq; [exact Hidx|]. intros Heq. symmetry in Heq.
    now apply gzname_neq_idxname in Heq. }
  apply lock_setlock_blocking in El as [(? & _)|(_ & _ & ->)]; [discriminate|].
  assert ((name +:+ ".index") +:+ ".old" <> name +:+ ".index") as Hoi
    by (apply append_neq_self; discriminate).
  unfold sys_rename in Er. simpl w_files in Er. rewrite Hidx1 in Er.
  assert (rr = 0 /\
          w_files w3 = <[(name +:+ ".index") +:+ ".old" := f]>
                         (delete (name +:+ ".index") (w_files w1))) as (-> & Hf3).
  { destruct (rename_error f _) as [e|] eqn:Ee; simplify_eq; simpl in Hc |- *; [|auto].
    apply rename_error_errno in Ee as [_ Hne]. apply Z.eqb_neq in Hne.
    rewrite Hne in Hc. discriminate Hc. }
  assert (w_files w3 !! (name +:+ ".index") = None) as Hnone.
  { rewrite Hf3, lookup_insert_ne by exact Hoi. apply lookup_delete_eq. }
  unfold sqldb_open in Es. rewrite Hnone in Es. injection Es as <- <-.
  injection E as _ <- <-. simpl.
  rewrite lookup_insert_ne by auto. rewrite Hf3, lookup_insert_eq, lookup_insert_eq.
  auto.
Qed.

(** The descriptor that [open] returns on the world after the
    allocations is the one it returns on the world before them. *)
Lemma sys_open_allocs path flags name (w : world P) fd w1 :
  sys_open path flags
    (alloc (name +:+ ".index") (alloc (name +:+ ".gz")
       (alloc name (alloc struct_backup w)))) = (fd, w1) ->
  fd = (sys_open path flags w).1.
Proof.
  rewrite !sys_open_alloc. destruct (sys_open path flags w) as [fd0 w0].
  simpl. now intros [= <- _].
Qed.

(** X6: with the index mode CREATE an index that is missing is no error:
    the [ENOENT] of [rename] is passed over, the open succeeds when the log
    opens and the lock is granted, and the index is created at the
    current version. *)
Theorem open_create_missing_index name lock_type data_mode index_mode (w : world P)
    r h w' :
  index_mode = BACKUP_INDEX_CREATE ->
  w_files w !! (name +:+ ".index") = None ->
  0 <= (sys_open (name +:+ ".gz") (open_flags data_mode) w).1 ->
  w_enolck w = false ->
  backup_open_internal name lock_type data_mode index_mode w = (r, h, w') ->
  r = 0 /\
  (exists b, h = Some b /\
             backup_oldidxname b = Some ((name +:+ ".index") +:+ ".old")) /\
  w_files w' !! (name +:+ ".index") = Some (SqlFile backup_index_version).
Proof.
  intros Him Hidx Hopen Hk E. open_inv E; try discriminate Him.
  1:{ apply sys_open_allocs in Eo. lia. }
  all: pose proof (sys_open_frame _ _ _ _ _ Eo) as (_ & _ & _ & Hk1 & _); simpl in Hk1.
  all: apply lock_setlock_blocking in El as [(Hr & Hk2 & ->)|(Hr & _ & ->)];
       try congruence.
  all: destruct (sys_open_result _ _ _ _ _ Eo) as [(? & _)|(_ & _ & _ & Hq)]; [lia|].
  all: assert (w_files w1 !! (name +:+ ".index") = None) as Hidx1
         by (rewrite Hq; [exact Hidx|]; intros Heq; symmetry in Heq;
             now apply gzname_neq_idxname in Heq).
  all: unfold sys_rename in Er; simpl w_files in Er; rewrite Hidx1 in Er;
       injection Er as <- <-.
  all: try (simpl in Hc; discriminate Hc).
  all: unfold sqldb_open in Es; simpl w_files in Es; rewrite Hidx1 in Es;
       try discriminate Es.
  injection Es as <- <-. injection E as <- <- <-. simpl.
  rewrite lookup_insert_eq. repeat split. eexists. split; reflexivity.
Qed.

(** X7: with the index mode CREATE, when the index cannot be moved aside
    for another reason than its absence (it is a file and a directory has
    the name with the suffix [.old], or it is a directory and that name is
    one of a file or of a directory that is not empty), the error of
    [rename] is what the open returns, and the index stays where it is. *)
Theorem open_create_rename_error name lock_type data_mode index_mode (w : world P)
    f e r h w' :
  index_mode = BACKUP_INDEX_CREATE ->
  w_files w !! (name +:+ ".index") = Some f ->
  rename_error f (w_files w !! ((name +:+ ".index") +:+ ".old")) = Some e ->
  0 <= (sys_open (name +:+ ".gz") (open_flags data_mode) w).1 ->
  w_enolck w = false ->
  backup_open_internal name lock_type data_mode index_mode w = (r, h, w') ->
  r = e /\ h = None /\ w_files w' !! (name +:+ ".index") = Some f.
Proof.
  intros Him Hidx Hold Hopen Hk E. open_inv E; try discriminate Him.
  1:{ apply sys_open_allocs in Eo. lia. }
  all: pose proof (sys_open_frame _ _ _ _ _ Eo) as (_ & _ & _ & Hk1 & _); simpl in Hk1.
  all: apply lock_setlock_blocking in El as [(Hr & Hk2 & ->)|(Hr & _ & ->)];
       try congruence.
  all: destruct (sys_open_result _ _ _ _ _ Eo) as [(? & _)|(_ & _ & _ & Hq)]; [lia|].
  all: assert (w_files w1 !! (name +:+ ".index") = Some f) as Hidx1
         by (rewrite Hq; [exact Hidx|]; intros Heq; symmetry in Heq;
             now apply gzname_neq_idxname in Heq).
  all: assert (w_files w1 !! ((name +:+ ".index") +:+ ".old")
               = w_files w !! ((name +:+ ".index") +:+ ".old")) as Hold1
         by (apply Hq; intros Heq; symmetry in Heq;
             now apply gzname_neq_oldidxname in Heq).
  all: unfold sys_rename in Er; simpl w_files in Er; rewrite Hidx1, Hold1, Hold in Er;
       injection Er as <- <-.
  all: apply rename_error_errno in Hold as [_ Hne]; apply Z.eqb_neq in Hne.
  all: try (simpl in Hc; rewrite Hne in Hc; discriminate Hc).
  match type of E with
  | backup_open_error ?b ?r0 ?wx = _ =>
      destruct (open_error_frame b r0 wx) as (wy & Ey & Hfy & _);
      rewrite Ey in E; injection E as <- <- <-
  end.
  rewrite Hfy. simpl. auto.
Qed.

(** X8: with the data mode CREATE the log that the open created is still
    there when the open fails afterwards: the code at [error] does not
    remove it. *)
Theorem open_create_leaves_log name lock_type data_mode index_mode (w : world P) r w' :
  data_mode = BACKUP_DATA_CREATE ->
  w_files w !! (name +:+ ".gz") = None ->
  backup_open_internal name lock_type data_mode index_mode w = (r, None, w') ->
  w_files w' !! (name +:+ ".gz") = Some (GzFile []).
Proof.
  intros -> Hgz E.
  rewrite backup_open_internal_unfold in E. cbv zeta in E.
  unfold sys_open in E. simpl w_files in E. rewrite Hgz in E.
  change (has_flag (open_flags BACKUP_DATA_CREATE) O_CREAT) with true in E. cbv iota in E.
  unfold new_fd in E.
  match type of E with
  | context [lowest_free ?m ?n ?k] =>
      pose proof (lowest_free_ge m n k) as Hge; set (fd := lowest_free m n k) in *
  end.
  destruct (Z.ltb_spec fd 0) as [Hlt|_]; [lia|].
  match type of E with
  | context [lock_setlock fd ?e 0 ?f ?w1] =>
      destruct (lock_setlock fd e 0 f w1) as [rl w2] eqn:El
  end.
  assert (w_files w2 !! (name +:+ ".gz") = Some (GzFile [])) as Hgz2.
  { apply lock_setlock_blocking in El as [(_ & _ & ->)|(_ & _ & ->)]; simpl;
      apply lookup_insert_eq. }
  assert (forall b r0 (wx : world P), w_files wx !! (name +:+ ".gz") = Some (GzFile []) ->
            backup_open_error b r0 wx = (r, None, w') ->
            w_files w' !! (name +:+ ".gz") = Some (GzFile [])) as Herr.
  { intros b r0 wx Hx Ex. destruct (open_error_frame b r0 wx) as (wy & Ey & Hfy & _).
    rewrite Ey in Ex. injection Ex as _ <-. now rewrite Hfy. }
  assert (forall a i u (wx : world P) d wz,
            w_files wx !! (name +:+ ".gz") = Some (GzFile []) ->
            sqldb_open a i backup_index_version u wx = (d, wz) -> d = None ->
            w_files wz = w_files wx) as Hsql.
  { intros a i u wx d wz _ Es ->. unfold sqldb_open in Es.
    repeat case_match; simplify_eq; reflexivity. }
  destruct (negb (rl =? 0)); [eapply Herr; [exact Hgz2|exact E]|].
  unfold backup_open_index in E.
  destruct index_mode.
  - destruct (sqldb_open _ None _ None w2) as [[d|] w4] eqn:Es; [discriminate E|].
    eapply Herr; [|exact E]. now rewrite (Hsql _ _ _ _ _ _ Hgz2 Es eq_refl).
  - destruct (sqldb_open _ _ _ _ w2) as [[d|] w4] eqn:Es; [discriminate E|].
    eapply Herr; [|exact E]. now rewrite (Hsql _ _ _ _ _ _ Hgz2 Es eq_refl).
  - destruct (sys_rename _ _ _) as [rr w3] eqn:Er.
    assert (w_files w3 !! (name +:+ ".gz") = Some (GzFile [])) as Hgz3.
    { pose proof (gzname_neq_idxname name) as Hgi.
      pose proof (gzname_neq_oldidxname name) as Hgo.
      unfold sys_rename in Er. simpl w_files in Er.
      repeat case_match; simplify_eq; simpl; try exact Hgz2.
      all: rewrite lookup_insert_ne by congruence;
           rewrite lookup_delete_ne by congruence; exact Hgz2. }
    destruct (negb (rr =? 0) && negb (w_errno w3 =? ENOENT)).
    + eapply Herr; [|exact E]. exact Hgz3.
    + destruct (sqldb_open _ _ _ _ w3) as [[d|] w4] eqn:Es; [discriminate E|].
      eapply Herr; [|exact E]. now rewrite (Hsql _ _ _ _ _ _ Hgz3 Es eq_refl).
Qed.


End OpenMore.

(** ** The reindexer on members whose commands parse *)

Section ReindexMore.

Context {P : Type} `{RecordCodec P}.
Variable indet : P -> time_t.










(** The loop over the members of a log is the loop over a first part of
    them followed by the loop over the rest; when the process exits in the
    first part the rest is not read. *)
Lemma reindex_members_app fuel b (g1 g2 : list P) : forall r w,
  reindex_members indet fuel b (g1 ++ g2) r w =
    match reindex_members indet fuel b g1 r w with
    | Some (LoopEnd r' w') => reindex_members indet fuel b g2 r' w'
    | other => other
    end.
Proof.
  induction g1 as [|member g1 IH]; intros r w; simpl; [reflexivity|].
  destruct (reindex_member indet fuel b (-1) r member w) as [[r' w'|msg w'|w']|];
    try reflexivity.
  apply IH.
Qed.


(** The loops never hand [ucase] the name of a [NULL] list. *)
Lemma reindex_member_no_crash b fuel : forall (member : P) member_ts r w w',
  reindex_member indet fuel b member_ts r member w <> Some (LoopCrash w').
Proof.
  induction fuel as [|fuel IH]; intros member member_ts r w w'; simpl; [discriminate|].
  pose proof (reindex_iteration_no_crash indet b member_ts r member w) as Hn.
  destruct (reindex_iteration indet b member_ts r member w); try discriminate.
  - contradiction.
  - apply IH.
Qed.

Lemma reindex_members_no_crash b fuel (gzuc : list P) : forall r w w',
  reindex_members indet fuel b gzuc r w <> Some (LoopCrash w').
Proof.
  induction gzuc as [|member gzuc IH]; intros r w w'; simpl; [discriminate|].
  pose proof (reindex_member_no_crash b fuel member (-1) r w) as Hn.
  destruct (reindex_member indet fuel b (-1) r member w) as [[r1 w1|msg w1|w1]|];
    try discriminate.
  - apply IH.
  - intros [= <-]. now apply (Hn w1).
Qed.

(** The loops change nothing in the world but the calls of
    [backup_index_dlist]. *)
Lemma reindex_iteration_frame b member_ts r (member member' : P) w member_ts' r' w' :
  reindex_iteration indet b member_ts r member w = IterNext member_ts' r' member' w' ->
  same_resources w w'.
Proof.
  unfold reindex_iteration, backup_index_dlist, same_resources.
  intros E. repeat case_match; simplify_eq; simpl; auto 10.
Qed.

Lemma reindex_member_frame b fuel : forall (member : P) member_ts r w r' w',
  reindex_member indet fuel b member_ts r member w = Some (LoopEnd r' w') ->
  same_resources w w'.
Proof.
  induction fuel as [|fuel IH]; intros member member_ts r w r' w'; simpl; [discriminate|].
  destruct (reindex_iteration indet b member_ts r member w)
    as [m1|msg| |member_ts1 r1 m1 w1] eqn:Ei; try discriminate.
  - intros [= <- <-]. unfold same_resources. auto 10.
  - intros E. apply reindex_iteration_frame in Ei. apply IH in E.
    unfold same_resources in *. intuition congruence.
Qed.

Lemma reindex_members_frame b fuel (gzuc : list P) : forall r w r' w',
  reindex_members indet fuel b gzuc r w = Some (LoopEnd r' w') ->
  same_resources w w'.
Proof.
  induction gzuc as [|member gzuc IH]; intros r w r' w'; simpl.
  - intros [= <- <-]. unfold same_resources. auto 10.
  - destruct (reindex_member indet fuel b (-1) r member w) as [[r1 w1|msg w1|w1]|] eqn:Em;
      try discriminate.
    intros E. apply reindex_member_frame in Em. apply IH in E.
    unfold same_resources in *. intuition congruence.
Qed.




End ReindexMore.

(** ** The whole of backup_reindex *)

Section ReindexWhole.

Context {P : Type} `{RecordCodec P} `{SqlConsts}.
Variable indet : P -> time_t.

(** X11: [backup_reindex] neither runs into its assertion nor into a
    [NULL] payload: it returns, or it exits through [fatal]. *)
Theorem reindex_never_crashes fuel name (w : world P) res w' :
  backup_reindex indet fuel name w = Some (res, w') -> res <> Crashed.
Proof.
  unfold backup_reindex.
  destruct (backup_open_internal name _ _ _ w) as [[r bp] w0] eqn:Eo.
  destruct (Z.eqb_spec r 0) as [->|Hr]; simpl; [|intros [= <- _]; discriminate].
  destruct bp as [b|].
  2:{ now apply open_failure in Eo. }
  destruct (gzuc_open (backup_fd b) w0) as [gzuc|].
  - pose proof (reindex_members_no_crash indet b fuel gzuc 0 w0) as Hn.
    destruct (reindex_members indet fuel b gzuc 0 w0) as [[r1 w1|msg w1|w1]|];
      try discriminate.
    + intros [= <- _]. discriminate.
    + intros [= <- _]. discriminate.
    + now destruct (Hn w1).
  - simpl. intros [= <- _]. discriminate.
Qed.

(** X12: the reindex of a backup whose log is missing returns [ENOENT];
    it touches no file, so that an index that exists is neither moved nor
    replaced, and it submits nothing. *)
Theorem reindex_missing_log fuel name (w : world P) :
  w_files w !! (name +:+ ".gz") = None ->
  exists w',
    backup_reindex indet fuel name w = Some (Returned ENOENT, w') /\
    w_files w' = w_files w /\ w_index_calls w' = w_index_calls w.
Proof.
  intros Hgz. unfold backup_reindex.
  destruct (backup_open_internal name _ _ _ w) as [[r bp] w0] eqn:Eo.
  destruct (open_log_missing _ _ _ _ _ _ _ _ Eo ltac:(discriminate) Hgz)
    as (-> & -> & Hf).
  exists w0. split; [reflexivity|]. split; [exact Hf|].
  rewrite backup_open_internal_unfold in Eo. cbv zeta in Eo.
  unfold sys_open in Eo. simpl w_files in Eo. rewrite Hgz in Eo. simpl in Eo.
  injection Eo as <-. reflexivity.
Qed.


(** A turn of the loop that goes on has parsed or skipped a line. *)
Lemma reindex_iteration_goes_on b member_ts r (member member' : P) w member_ts' r' w' :
  reindex_iteration indet b member_ts r member w = IterNext member_ts' r' member' w' ->
  exists c out, backup_parse_command member = (c, out, member') /\ c <> EOF.
Proof.
  unfold reindex_iteration.
  destruct (backup_parse_command member) as [[c out] m0].
  destruct (Z.eqb_spec c EOF) as [->|Hc]; [discriminate|].
  intros E. exists c, out. split; [|exact Hc].
  repeat case_match; simplify_eq; reflexivity.
Qed.

(** X13: once the open has returned, the loops of [backup_reindex] come
    to an end whenever the parser consumes input: if every call of
    [backup_parse_command] that does not return [EOF] leaves a smaller
    stream, the loop over the members ends or exits through [fatal]
    within as many turns per member as the largest member has in size, and
    one more; it does not hand a [NULL] payload to [ucase]. *)
Theorem reindex_loops_return (size : P -> nat) fuel b (gzuc : list P) r (w : world P) :
  (forall member c out member',
     backup_parse_command member = (c, out, member') -> c <> EOF ->
     (size member' < size member)%nat) ->
  Forall (fun member => (size member < fuel)%nat) gzuc ->
  exists res,
    reindex_members indet fuel b gzuc r w = Some res /\
    forall w', res <> LoopCrash w'.
Proof.
  intros Hparse Hall.
  assert (forall n (member : P) member_ts r1 w1,
            (size member < n)%nat ->
            exists res, reindex_member indet n b member_ts r1 member w1 = Some res)
    as Hmember.
  { induction n as [|n IH]; intros member member_ts r1 w1 Hlen; [lia|].
    simpl.
    destruct (reindex_iteration indet b member_ts r1 member w1)
      as [m'|msg| |member_ts' r' m' w'] eqn:Ei; eauto.
    apply reindex_iteration_goes_on in Ei as (c & out & Ep & Hc).
    apply Hparse in Ep; [|exact Hc]. apply IH. lia. }
  assert (exists res, reindex_members indet fuel b gzuc r w = Some res) as [res E].
  { revert r w. induction Hall as [|member gzuc Hm Hall IH]; intros r w; simpl; [eauto|].
    destruct (Hmember fuel member (-1) r w Hm) as [res ->].
    destruct res; eauto. }
  exists res. split; [exact E|]. intros w' ->.
  exact (reindex_members_no_crash indet b fuel gzuc r w w' E).
Qed.

(** The descriptor of a handle is open on the log. *)
Lemma open_descriptor name lock_type data_mode index_mode (w : world P) r h w' :
  backup_open_internal name lock_type data_mode index_mode w = (r, Some h, w') ->
  w_fds w' !! backup_fd h = Some (name +:+ ".gz").
Proof.
  intros E.
  destruct (open_success _ _ _ _ _ _ _ _ E)
    as (fd & w1 & w2 & w3 & d & ini & upg & old & Eo & Hfd & El & Hi & Es & -> & ->).
  simpl.
  pose proof (sqldb_open_frame _ _ _ _ _ _ _ Es) as (_ & Hf4 & _).
  destruct (sys_open_result _ _ _ _ _ Eo) as [(? & _)|(_ & Hf1 & _)]; [lia|].
  apply lock_setlock_blocking in El as [(? & _)|(_ & _ & ->)]; [discriminate|].
  assert (w_fds w3 = w_fds w1) as Hf3.
  { destruct index_mode.
    - now destruct Hi as (-> & _).
    - now destruct Hi as (-> & _).
    - destruct Hi as ((r' & Er) & _).
      now apply sys_rename_frame in Er as (_ & -> & _). }
  rewrite Hf4, Hf3, Hf1. apply lookup_insert_eq.
Qed.

(** X22: a reindex that has opened the backup and returns has released
    nothing: [backup_close] is a stub, so the descriptor of the log is
    still open, the EXCLUSIVE lock is still held, and the index
    connection and the heap blocks of the handle are those that the open
    left. *)
Theorem reindex_returns_holding_lock fuel name (w : world P) b w0 r w' :
  backup_open_internal name BACKUP_LOCK_EXCLUSIVE BACKUP_DATA_NORMAL BACKUP_INDEX_CREATE w
    = (0, Some b, w0) ->
  backup_reindex indet fuel name w = Some (Returned r, w') ->
  w_fds w' !! backup_fd b = Some (name +:+ ".gz") /\
  w_locks w' !! backup_fd b = Some BACKUP_LOCK_EXCLUSIVE /\
  w_dbs w' = w_dbs w0 /\ w_heap w' = w_heap w0 /\
  (exists d, backup_db b = Some d /\ In d (w_dbs w')) /\
  In (name +:+ ".gz") (w_heap w').
Proof.
  intros Eo E.
  pose proof (open_descriptor _ _ _ _ _ _ _ _ Eo) as Hfd.
  destruct (open_handle _ _ _ _ _ _ _ _ Eo) as (_ & _ & _ & _ & Hl).
  assert ((exists d, backup_db b = Some d /\ In d (w_dbs w0)) /\
          In (name +:+ ".gz") (w_heap w0)) as [Hd Hh].
  { destruct (open_success _ _ _ _ _ _ _ _ Eo)
      as (fd & w1 & w2 & w3 & d & ini & upg & old & Es & _ & El & Hi & Eq & _ & ->).
    simpl.
    pose proof (sqldb_open_frame _ _ _ _ _ _ _ Eq) as (_ & _ & _ & _ & _ & Hh4 & _ & _ & Hd4).
    pose proof (sys_open_frame _ _ _ _ _ Es) as (_ & _ & _ & _ & _ & Hh1 & _).
    apply lock_setlock_blocking in El as [(? & _)|(_ & _ & ->)]; [discriminate|].
    assert (exists pre, w_heap w3 = pre ++ w_heap w1) as (pre & Hh3).
    { destruct Hi as ((r' & Er) & _).
      apply sys_rename_frame in Er as (_ & _ & _ & _ & _ & _ & -> & _).
      now exists [(name +:+ ".index") +:+ ".old"]. }
    split; [exists d; split; [reflexivity|]; rewrite Hd4; now left|].
    rewrite Hh4, Hh3, Hh1. simpl. apply in_or_app. right. simpl. auto. }
  unfold backup_reindex in E. rewrite Eo in E. simpl negb in E. cbv iota in E.
  assert (same_resources w0 w') as (_ & Hf & Hk & Hdb & Hhp).
  { destruct (gzuc_open (backup_fd b) w0) as [gzuc|].
    - destruct (reindex_members indet fuel b gzuc 0 w0) as [[r1 w1|msg w1|w1]|] eqn:Em;
        try discriminate.
      apply reindex_members_frame in Em. simpl in E. now injection E as <- <-.
    - simpl in E. injection E as <- <-. unfold same_resources. auto 10. }
  rewrite Hf, Hk, Hdb, Hhp. auto 10.
Qed.

End ReindexWhole.

(** * Runs of the open and of the reindex on the further examples *)

Section MoreRuns.

#[local] Existing Instance example_consts.
#[local] Existing Instance Bytes.codec.

(** An open for writing on an index stored at version 1. *)
Lemma open_returns_zero_iff_handle_witness :
  backup_open_internal "user" BACKUP_LOCK_EXCLUSIVE BACKUP_DATA_NORMAL BACKUP_INDEX_WRITE
    (index_world "user" [] 1) = write_opened /\
  (write_opened.1.1 = 0 <-> exists b, write_opened.1.2 = Some b).
Proof.
  assert (backup_open_internal "user" BACKUP_LOCK_EXCLUSIVE BACKUP_DATA_NORMAL
            BACKUP_INDEX_WRITE (index_world "user" [] 1) = write_opened) as E
    by (vm_compute; reflexivity).
  split; [exact E|].
  exact (open_returns_zero_iff_handle "user" BACKUP_LOCK_EXCLUSIVE BACKUP_DATA_NORMAL
           BACKUP_INDEX_WRITE (index_world "user" [] 1)
           write_opened.1.1 write_opened.1.2 write_opened.2 E).
Defined.



(** The same open with an EXCLUSIVE lock. *)
Lemma open_failure_releases_exclusive_witness :
  negotiated_lock BACKUP_LOCK_EXCLUSIVE BACKUP_DATA_NORMAL = BACKUP_LOCK_EXCLUSIVE /\
  locks_on_open_fds (index_world "user" [] 99) /\
  backup_open_internal "user" BACKUP_LOCK_EXCLUSIVE BACKUP_DATA_NORMAL BACKUP_INDEX_READ
    (index_world "user" [] 99) = (exclusive_failed.1.1, None, exclusive_failed.2) /\
  w_locks exclusive_failed.2 = w_locks (index_world "user" [] 99).
Proof.
  assert (locks_on_open_fds (index_world "user" [] 99)) as Hl
    by (intros fd _; reflexivity).
  assert (backup_open_internal "user" BACKUP_LOCK_EXCLUSIVE BACKUP_DATA_NORMAL
            BACKUP_INDEX_READ (index_world "user" [] 99) =
          (exclusive_failed.1.1, None, exclusive_failed.2)) as E
    by (vm_compute; reflexivity).
  split; [reflexivity|]. split; [exact Hl|]. split; [exact E|].
  exact (open_failure_releases_exclusive "user" BACKUP_LOCK_EXCLUSIVE BACKUP_DATA_NORMAL
           BACKUP_INDEX_READ (index_world "user" [] 99) _ _ eq_refl Hl E).
Defined.

(** The open of a backup that has no log, for reading. *)
Lemma open_log_errors_witness :
  backup_open_internal "user" BACKUP_LOCK_EXCLUSIVE BACKUP_DATA_NORMAL BACKUP_INDEX_CREATE
    empty_world = missing_opened /\
  BACKUP_DATA_NORMAL <> BACKUP_DATA_CREATE /\
  w_files (@empty_world string) !! ("user" +:+ ".gz") = None /\
  missing_opened.1.1 = ENOENT /\ missing_opened.1.2 = None /\
  w_files missing_opened.2 = w_files (@empty_world string).
Proof.
  assert (backup_open_internal "user" BACKUP_LOCK_EXCLUSIVE BACKUP_DATA_NORMAL
            BACKUP_INDEX_CREATE empty_world = missing_opened) as E
    by (vm_compute; reflexivity).
  split; [exact E|]. split; [discriminate|]. split; [reflexivity|].
  exact (proj1 (open_log_errors "user" BACKUP_LOCK_EXCLUSIVE BACKUP_DATA_NORMAL
                  BACKUP_INDEX_CREATE empty_world
                  missing_opened.1.1 missing_opened.1.2 missing_opened.2 E)
           ltac:(discriminate) eq_refl).
Defined.

(** An open that creates the index where one is stored at version 1. *)
Lemma open_create_moves_index_aside_witness :
  w_files (index_world "user" [] 1) !! ("user" +:+ ".index") = Some (SqlFile 1) /\
  backup_open_internal "user" BACKUP_LOCK_EXCLUSIVE BACKUP_DATA_NORMAL BACKUP_INDEX_CREATE
    (index_world "user" [] 1) =
    (create_opened.1.1, Some (handle_of create_opened), create_opened.2) /\
  w_files create_opened.2 !! (("user" +:+ ".index") +:+ ".old") = Some (SqlFile 1) /\
  w_files create_opened.2 !! ("user" +:+ ".index") = Some (SqlFile backup_index_version) /\
  backup_oldidxname (handle_of create_opened) = Some (("user" +:+ ".index") +:+ ".old") /\
  backup_db (handle_of create_opened) =
    Some {| db_fname := "user" +:+ ".index"; db_version := backup_index_version;
            db_upgraded := [] |}.
Proof.
  assert (backup_open_internal "user" BACKUP_LOCK_EXCLUSIVE BACKUP_DATA_NORMAL
            BACKUP_INDEX_CREATE (index_world "user" [] 1) =
          (create_opened.1.1, Some (handle_of create_opened), create_opened.2)) as E
    by (vm_compute; reflexivity).
  split; [reflexivity|]. split; [exact E|].
  exact (open_create_moves_index_aside "user" BACKUP_LOCK_EXCLUSIVE BACKUP_DATA_NORMAL
           BACKUP_INDEX_CREATE (index_world "user" [] 1) (SqlFile 1) _ _ _
           eq_refl eq_refl E).
Defined.

(** The open of [backup_reindex] on a backup that has a log and no
    index. *)
Lemma open_create_missing_index_witness :
  w_files (log_world "user" []) !! ("user" +:+ ".index") = None /\
  0 <= (sys_open ("user" +:+ ".gz") (open_flags BACKUP_DATA_NORMAL)
          (log_world "user" [])).1 /\
  w_enolck (log_world "user" []) = false /\
  backup_open_internal "user" BACKUP_LOCK_EXCLUSIVE BACKUP_DATA_NORMAL BACKUP_INDEX_CREATE
    (log_world "user" []) = reindex_opened [] /\
  (reindex_opened []).1.1 = 0 /\
  (exists b, (reindex_opened []).1.2 = Some b /\
             backup_oldidxname b = Some (("user" +:+ ".index") +:+ ".old")) /\
  w_files (reindex_opened []).2 !! ("user" +:+ ".index")
    = Some (SqlFile backup_index_version).
Proof.
  assert (0 <= (sys_open ("user" +:+ ".gz") (open_flags BACKUP_DATA_NORMAL)
                  (log_world "user" [])).1) as Hopen
    by (vm_compute; discriminate).
  assert (backup_open_internal "user" BACKUP_LOCK_EXCLUSIVE BACKUP_DATA_NORMAL
            BACKUP_INDEX_CREATE (log_world "user" []) = reindex_opened []) as E
    by (vm_compute; reflexivity).
  split; [reflexivity|]. split; [exact Hopen|]. split; [reflexivity|].
  split; [exact E|].
  exact (open_create_missing_index "user" BACKUP_LOCK_EXCLUSIVE BACKUP_DATA_NORMAL
           BACKUP_INDEX_CREATE (log_world "user" [])
           (reindex_opened []).1.1 (reindex_opened []).1.2 (reindex_opened []).2
           eq_refl eq_refl Hopen eq_refl E).
Defined.

(** The open that creates the index while a directory has the name that
    the index is to be moved to. *)
Lemma open_create_rename_error_witness :
  w_files old_dir_world !! ("user" +:+ ".index") = Some (SqlFile 1) /\
  rename_error (SqlFile 1) (w_files old_dir_world !! (("user" +:+ ".index") +:+ ".old"))
    = Some EISDIR /\
  0 <= (sys_open ("user" +:+ ".gz") (open_flags BACKUP_DATA_NORMAL) old_dir_world).1 /\
  w_enolck old_dir_world = false /\
  backup_open_internal "user" BACKUP_LOCK_EXCLUSIVE BACKUP_DATA_NORMAL BACKUP_INDEX_CREATE
    old_dir_world = rename_failed /\
  rename_failed.1.1 = EISDIR /\ rename_failed.1.2 = None /\
  w_files rename_failed.2 !! ("user" +:+ ".index") = Some (SqlFile 1).
Proof.
  assert (0 <= (sys_open ("user" +:+ ".gz") (open_flags BACKUP_DATA_NORMAL)
                  old_dir_world).1) as Hopen
    by (vm_compute; discriminate).
  assert (backup_open_internal "user" BACKUP_LOCK_EXCLUSIVE BACKUP_DATA_NORMAL
            BACKUP_INDEX_CREATE old_dir_world = rename_failed) as E
    by (vm_compute; reflexivity).
  split; [reflexivity|]. split; [reflexivity|]. split; [exact Hopen|].
  split; [reflexivity|]. split; [exact E|].
  exact (open_create_rename_error "user" BACKUP_LOCK_EXCLUSIVE BACKUP_DATA_NORMAL
           BACKUP_INDEX_CREATE old_dir_world (SqlFile 1) EISDIR
           rename_failed.1.1 rename_failed.1.2 rename_failed.2
           eq_refl eq_refl eq_refl Hopen eq_refl E).
Defined.

(** The open that creates the log of a backup whose index is of a newer
    version than the current one. *)
Lemma open_create_leaves_log_witness :
  w_files newer_index_world !! ("user" +:+ ".gz") = None /\
  backup_open_internal "user" BACKUP_LOCK_SHARED BACKUP_DATA_CREATE BACKUP_INDEX_WRITE
    newer_index_world = (create_failed.1.1, None, create_failed.2) /\
  w_files create_failed.2 !! ("user" +:+ ".gz") = Some (GzFile []).
Proof.
  assert (backup_open_internal "user" BACKUP_LOCK_SHARED BACKUP_DATA_CREATE
            BACKUP_INDEX_WRITE newer_index_world =
          (create_failed.1.1, None, create_failed.2)) as E
    by (vm_compute; reflexivity).
  split; [reflexivity|]. split; [exact E|].
  exact (open_create_leaves_log "user" BACKUP_LOCK_SHARED BACKUP_DATA_CREATE
           BACKUP_INDEX_WRITE newer_index_world _ _ eq_refl eq_refl E).
Defined.



(** The reindex of a log with a line that does not parse. *)
Lemma reindex_never_crashes_witness :
  exists res w',
    backup_reindex no_ts 10 "user" (log_world "user" [member_junk; member_verbs]) =
      Some (res, w') /\ res <> Crashed.
Proof.
  destruct junk_reindexed as [[res w']|] eqn:Ej; [|discriminate Ej].
  assert (backup_reindex no_ts 10 "user" (log_world "user" [member_junk; member_verbs]) =
            Some (res, w')) as E
    by (rewrite <- Ej; vm_compute; reflexivity).
  exists res, w'. split; [exact E|].
  exact (reindex_never_crashes no_ts 10 "user"
           (log_world "user" [member_junk; member_verbs]) res w' E).
Defined.

(** The reindex of a backup without files. *)
Lemma reindex_missing_log_witness :
  w_files (@empty_world string) !! ("user" +:+ ".gz") = None /\
  exists w',
    backup_reindex no_ts 10 "user" empty_world = Some (Returned ENOENT, w') /\
    w_files w' = w_files (@empty_world string) /\
    w_index_calls w' = w_index_calls (@empty_world string).
Proof.
  split; [reflexivity|].
  exact (reindex_missing_log no_ts 10 "user" empty_world eq_refl).
Defined.

(** The loop over a log of two members, with the byte codec and the
    length of the stream as its size. *)
Lemma reindex_loops_return_witness :
  (forall member c out member',
     backup_parse_command member = (c, out, member') -> c <> EOF ->
     (String.length member' < String.length member)%nat) /\
  Forall (fun member => (String.length member < 100)%nat) [member_junk; member_verbs] /\
  exists res,
    reindex_members no_ts 100 example_backup [member_junk; member_verbs] 0
      (log_world "user" [member_junk; member_verbs]) = Some res /\
    forall w', res <> LoopCrash w'.
Proof.
  assert (forall member c out member',
            backup_parse_command member = (c, out, member') -> c <> EOF ->
            (String.length member' < String.length member)%nat) as Hparse
    by (intros member c out member'; apply parse_command_consumes).
  assert (Forall (fun member => (String.length member < 100)%nat)
            [member_junk; member_verbs]) as Hall
    by (repeat constructor; apply Nat.ltb_lt; vm_compute; reflexivity).
  split; [exact Hparse|]. split; [exact Hall|].
  exact (reindex_loops_return no_ts String.length 100 example_backup
           [member_junk; member_verbs] 0 (log_world "user" [member_junk; member_verbs])
           Hparse Hall).
Defined.

(** The reindex of a log of one member. *)
Lemma reindex_returns_holding_lock_witness :
  backup_open_internal "user" BACKUP_LOCK_EXCLUSIVE BACKUP_DATA_NORMAL BACKUP_INDEX_CREATE
    (log_world "user" [member_verbs]) =
    (0, Some (handle_of (reindex_opened [member_verbs])),
     (reindex_opened [member_verbs]).2) /\
  backup_reindex no_ts 10 "user" (log_world "user" [member_verbs]) =
    Some (Returned verbs_reindexed.1, verbs_reindexed.2) /\
  w_fds verbs_reindexed.2 !! backup_fd (handle_of (reindex_opened [member_verbs]))
    = Some ("user" +:+ ".gz") /\
  w_locks verbs_reindexed.2 !! backup_fd (handle_of (reindex_opened [member_verbs]))
    = Some BACKUP_LOCK_EXCLUSIVE /\
  w_dbs verbs_reindexed.2 = w_dbs (reindex_opened [member_verbs]).2 /\
  w_heap verbs_reindexed.2 = w_heap (reindex_opened [member_verbs]).2 /\
  (exists d, backup_db (handle_of (reindex_opened [member_verbs])) = Some d /\
             In d (w_dbs verbs_reindexed.2)) /\
  In ("user" +:+ ".gz") (w_heap verbs_reindexed.2).
Proof.
  assert (backup_open_internal "user" BACKUP_LOCK_EXCLUSIVE BACKUP_DATA_NORMAL
            BACKUP_INDEX_CREATE (log_world "user" [member_verbs]) =
          (0, Some (handle_of (reindex_opened [member_verbs])),
           (reindex_opened [member_verbs]).2)) as Eo
    by (vm_compute; reflexivity).
  assert (backup_reindex no_ts 10 "user" (log_world "user" [member_verbs]) =
            Some (Returned verbs_reindexed.1, verbs_reindexed.2)) as E
    by (vm_compute; reflexivity).
  split; [exact Eo|]. split; [exact E|].
  exact (reindex_returns_holding_lock no_ts 10 "user" (log_world "user" [member_verbs])
           _ _ _ _ Eo E).
Defined.

End MoreRuns.

(** * The sieve lexer *)

(** ** Numbers *)

(** The digits of a decimal numeral are read back to the number it
    stands for. *)
Lemma digits_uint_acc (d : Decimal.uint) rest : forall acc,
  Lexer.digits (DecimalString.NilEmpty.string_of_uint d +:+ rest) (Z.pos acc) =
  Lexer.digits rest (Z.pos (Pos.of_uint_acc d acc)).
Proof.
  induction d as [|d IH|d IH|d IH|d IH|d IH|d IH|d IH|d IH|d IH|d IH]; intros acc;
    [reflexivity|..];
    cbn [DecimalString.NilEmpty.string_of_uint Pos.of_uint_acc];
    rewrite <- IH;
    match goal with
    | |- context [String ?a ?s +:+ ?r] =>
        change (String a s +:+ r) with (String a (s +:+ r))
    end;
    cbn [Lexer.digits];
    match goal with
    | |- (if Lexer.isdigit ?a then _ else _) = _ =>
        change (Lexer.isdigit a) with true; cbv iota;
        let c := eval vm_compute in (chr a - 48) in change (chr a - 48) with c
    end; f_equal; lia.
Qed.

Lemma digits_uint (d : Decimal.uint) rest :
  Lexer.digits (DecimalString.NilEmpty.string_of_uint d +:+ rest) 0 =
  Lexer.digits rest (Z.of_N (Pos.of_uint d)).
Proof.
  induction d as [|d IH|d IH|d IH|d IH|d IH|d IH|d IH|d IH|d IH|d IH];
    [reflexivity|..];
    cbn [DecimalString.NilEmpty.string_of_uint Pos.of_uint];
    match goal with
    | |- context [String ?a ?s +:+ ?r] =>
        change (String a s +:+ r) with (String a (s +:+ r))
    end;
    cbn [Lexer.digits];
    match goal with
    | |- (if Lexer.isdigit ?a then _ else _) = _ =>
        change (Lexer.isdigit a) with true; cbv iota;
        let c := eval vm_compute in (10 * 0 + (chr a - 48)) in
        change (10 * 0 + (chr a - 48)) with c
    end; [exact IH|exact (digits_uint_acc d rest _)..].
Qed.

Lemma numeral_nonempty n :
  Lexer.numeral n = DecimalString.NilEmpty.string_of_uint (N.to_uint (Z.to_N n)) /\
  Lexer.isdigit (Lexer.deref (Lexer.numeral n)) = true.
Proof.
  unfold Lexer.numeral. destruct (Z.to_N n) as [|p]; [split; reflexivity|].
  pose proof (DecimalPos.Unsigned.to_uint_nonnil p) as Hn.
  unfold N.to_uint. destruct (Pos.to_uint p); [contradiction|..]; split; reflexivity.
Qed.

Lemma digits_numeral n rest :
  0 <= n -> Lexer.isdigit (Lexer.deref rest) = false ->
  Lexer.digits (Lexer.numeral n +:+ rest) 0 = (n, rest).
Proof.
  intros Hn Hrest. rewrite (proj1 (numeral_nonempty n)), digits_uint.
  change (Pos.of_uint ?d) with (N.of_uint d).
  rewrite DecimalN.Unsigned.of_to, Z2N.id by exact Hn.
  destruct rest as [|a rest]; [reflexivity|]. simpl in Hrest. simpl. now rewrite Hrest.
Qed.

Lemma append_cons a (s t : string) : String a s +:+ t = String a (s +:+ t).
Proof. reflexivity. Qed.

Lemma append_nil_l (t : string) : EmptyString +:+ t = t.
Proof. reflexivity. Qed.

(** A string that starts with a digit has neither white space nor a sign
    in front. *)
Lemma digit_head a s :
  Lexer.isdigit a = true ->
  Lexer.signed (Lexer.skip_space (String a s)) = (false, String a s).
Proof.
  intros Hd.
  destruct a as [[] [] [] [] [] [] [] []]; try discriminate Hd; reflexivity.
Qed.

Lemma numeral_head n :
  exists a s, Lexer.numeral n = String a s /\ Lexer.isdigit a = true.
Proof.
  destruct (numeral_nonempty n) as [_ Hd].
  destruct (Lexer.numeral n) as [|a s]; [discriminate Hd|]. now exists a, s.
Qed.

(** [strtoull] on a numeral and what follows it. *)
Lemma strtoull_numeral n units errno :
  0 <= n -> Lexer.isdigit (Lexer.deref units) = false ->
  Lexer.strtoull (Lexer.numeral n +:+ units) errno =
    if n >? Lexer.ULLONG_MAX then (Lexer.ULLONG_MAX, units, Lexer.ERANGE)
    else (n, units, errno).
Proof.
  intros Hn Hu. unfold Lexer.strtoull.
  destruct (numeral_head n) as (a & s & E & Hd).
  pose proof (digits_numeral n units Hn Hu) as Hdig.
  rewrite E in Hdig |- *. rewrite append_cons in Hdig |- *.
  rewrite (digit_head a _ Hd). cbn [Lexer.deref]. rewrite Hd, Hdig.
  reflexivity.
Qed.

(** X14: [tonum] on the numeral of a number that an [unsigned long long]
    holds, followed by nothing, by a unit letter or by any other text that
    does not start with a digit, when [errno] is not [ERANGE] at the call:
    the result is the number times the factor of the letter ([2^10] for K,
    [2^20] for M, [2^30] for G, [2^40] for T, [2^50] for P, [2^60] for E,
    in upper or lower case, and [1] otherwise), modulo [2^64]. *)
Theorem tonum_scales n units errno :
  0 <= n <= Lexer.ULLONG_MAX ->
  Lexer.isdigit (Lexer.deref units) = false ->
  errno <> Lexer.ERANGE ->
  Lexer.tonum (Lexer.numeral n +:+ units) errno =
    (Lexer.wrap64 (n * Lexer.unit_factor (Lexer.deref units)), errno).
Proof.
  intros [Hn Hmax] Hu He. unfold Lexer.tonum.
  rewrite (strtoull_numeral n units errno Hn Hu).
  assert ((n >? Lexer.ULLONG_MAX) = false) as Hgt by (rewrite Z.gtb_ltb; now apply Z.ltb_ge).
  rewrite Hgt.
  assert (Lexer.wrap64 n = n) as Hw.
  { unfold Lexer.wrap64. apply Z.mod_small. unfold Lexer.ULLONG_MAX in Hmax. lia. }
  apply Z.eqb_neq in He. rewrite He. unfold Lexer.unit_factor.
  destruct (Ascii.eqb_spec (Lexer.deref units) NUL) as [->|_].
  - simpl. rewrite Z.mul_1_r, Hw. reflexivity.
  - cbn [negb andb].
    destruct (toupper (Lexer.deref units)) as [[] [] [] [] [] [] [] []];
      first [reflexivity | cbv iota; rewrite Z.mul_1_r, Hw; reflexivity].
Qed.


(** X16: a numeral that an [unsigned long long] does not hold: [tonum]
    gives [ULLONG_MAX] whatever the unit, [errno] is [ERANGE] afterwards,
    the rule reports that the number is too large, and it returns the
    token NUMBER all the same. *)
Theorem number_saturates n units errno :
  Lexer.ULLONG_MAX < n ->
  Lexer.isdigit (Lexer.deref units) = false ->
  Lexer.number (Lexer.numeral n +:+ units) errno =
    {| Lexer.number_error := Some ("number too large " +:+ Lexer.numeral n +:+ units);
       Lexer.number_nval := Lexer.ULLONG_MAX;
       Lexer.number_token := Lexer.NUMBER;
       Lexer.number_errno := Lexer.ERANGE |}.
Proof.
  intros Hmax Hu. unfold Lexer.number, Lexer.tonum.
  rewrite (strtoull_numeral n units errno) by (assumption || unfold Lexer.ULLONG_MAX in Hmax; lia).
  assert ((n >? Lexer.ULLONG_MAX) = true) as Hgt
    by (rewrite Z.gtb_ltb; now apply Z.ltb_lt).
  rewrite Hgt. rewrite Z.eqb_refl, andb_false_r. reflexivity.
Qed.

(** X17: [tonum] reads [errno] without having reset it: when [errno] is
    [ERANGE] at the call, left there by an earlier conversion, the unit is
    not applied and the result is the number alone. *)
Theorem tonum_stale_errno n units :
  0 <= n <= Lexer.ULLONG_MAX ->
  Lexer.isdigit (Lexer.deref units) = false ->
  Lexer.tonum (Lexer.numeral n +:+ units) Lexer.ERANGE = (n, Lexer.ERANGE).
Proof.
  intros [Hn Hmax] Hu. unfold Lexer.tonum.
  rewrite (strtoull_numeral n units _ Hn Hu).
  assert ((n >? Lexer.ULLONG_MAX) = false) as Hgt
    by (rewrite Z.gtb_ltb; now apply Z.ltb_ge).
  rewrite Hgt, Z.eqb_refl, andb_false_r. reflexivity.
Qed.

(** ** Quoted strings *)

Lemma buf_putc_append buf a s : Lexer.buf_putc buf a +:+ s = buf +:+ String a s.
Proof. unfold Lexer.buf_putc. rewrite append_assoc. reflexivity. Qed.

(** X18: in QSTRING a string written with a backslash before each of its
    double quotes and backslashes, and closed by a double quote, is read
    back as it was: the buffer receives the string, the token STRING is
    returned, the scanner is in INITIAL and the input after the closing
    quote is left. *)
Theorem qstring_reads_quoted s : forall buf rest,
  Lexer.qstring (Lexer.quoted s +:+ String Lexer.DQUOTE rest) buf =
    Lexer.Token Lexer.STRING (Lexer.Sval (buf +:+ s)) Lexer.INITIAL rest.
Proof.
  induction s as [|a s IH]; intros buf rest.
  - rewrite append_nil_r. reflexivity.
  - cbn [Lexer.quoted].
    destruct (Ascii.eqb_spec a Lexer.DQUOTE) as [->|Hq];
      [|destruct (Ascii.eqb_spec a Lexer.BACKSLASH) as [->|Hb]]; cbn [orb];
      rewrite ?append_cons; cbn [Lexer.qstring].
    + change (Ascii.eqb Lexer.BACKSLASH Lexer.DQUOTE) with false.
      change (Ascii.eqb Lexer.BACKSLASH Lexer.BACKSLASH) with true.
      change (Ascii.eqb Lexer.DQUOTE LF) with false. cbv iota.
      rewrite IH, buf_putc_append. reflexivity.
    + change (Ascii.eqb Lexer.BACKSLASH Lexer.DQUOTE) with false.
      change (Ascii.eqb Lexer.BACKSLASH Lexer.BACKSLASH) with true.
      change (Ascii.eqb Lexer.BACKSLASH LF) with false. cbv iota.
      rewrite IH, buf_putc_append. reflexivity.
    + apply Ascii.eqb_neq in Hq, Hb. rewrite Hq, Hb.
      rewrite IH, buf_putc_append. reflexivity.
Qed.

(** Without a double quote the scan reaches the end of the file. *)
Lemma qstring_without_quote_le n : forall s buf,
  (String.length s <= n)%nat -> Lexer.has_char Lexer.DQUOTE s = false ->
  Lexer.qstring s buf = Lexer.Terminated "unexpected end of file in string" Lexer.INITIAL.
Proof.
  induction n as [|n IH]; intros s buf Hl Hq.
  - destruct s; [reflexivity|simpl in Hl; lia].
  - destruct s as [|a s]; [reflexivity|].
    simpl in Hl. cbn [Lexer.has_char] in Hq. apply orb_false_iff in Hq as [Ha Hs].
    cbn [Lexer.qstring]. rewrite Ascii.eqb_sym, Ha.
    destruct (Ascii.eqb a Lexer.BACKSLASH).
    + destruct s as [|c s]; [apply IH; [simpl; lia|reflexivity]|].
      cbn [Lexer.has_char] in Hs. apply orb_false_iff in Hs as [Hc Hs'].
      simpl in Hl.
      destruct (Ascii.eqb c LF).
      * apply IH; [simpl; lia|]. cbn [Lexer.has_char]. now rewrite Hc, Hs'.
      * apply IH; [lia|exact Hs'].
    + apply IH; [lia|exact Hs].
Qed.

(** X19: in QSTRING an input without a double quote ends in the error
    for an unexpected end of file, whatever the buffer holds, escapes
    included; no token is returned. *)
Theorem qstring_without_quote s buf :
  Lexer.has_char Lexer.DQUOTE s = false ->
  Lexer.qstring s buf = Lexer.Terminated "unexpected end of file in string" Lexer.INITIAL.
Proof. apply (qstring_without_quote_le (String.length s)). lia. Qed.

(** ** Multi-line text *)

(** Away from the beginning of a line, the rest of a line is put as it
    is, with its line feed. *)
Lemma multiline_rest_of_line l : forall buf rest,
  Lexer.has_char LF l = false ->
  Lexer.multiline false (l +:+ String LF rest) buf =
    Lexer.multiline true rest (buf +:+ l +:+ String LF EmptyString).
Proof.
  induction l as [|a l IH]; intros buf rest Hl.
  - reflexivity.
  - cbn [Lexer.has_char] in Hl. apply orb_false_iff in Hl as [Ha Hl].
    rewrite append_cons. cbn [Lexer.multiline andb].
    rewrite Ascii.eqb_sym, Ha, (IH _ _ Hl), buf_putc_append. reflexivity.
Qed.

(** A line as it is written, read from the beginning of a line. *)
Lemma multiline_line l buf rest :
  Lexer.has_char LF l = false ->
  Lexer.multiline true (Lexer.stuffed l +:+ rest) buf =
    Lexer.multiline true rest (buf +:+ Lexer.unstuffed l).
Proof.
  intros Hl. unfold Lexer.stuffed, Lexer.unstuffed.
  destruct l as [|a l].
  - reflexivity.
  - cbn [Lexer.has_char] in Hl. apply orb_false_iff in Hl as [Ha Hl].
    destruct (Ascii.eqb_spec a ".") as [->|Hdot].
    + rewrite !append_assoc, !append_cons, append_nil_l.
      cbn [Lexer.multiline andb].
      change (Ascii.eqb "." ".") with true. change (Ascii.eqb "." CR) with false.
      change (Ascii.eqb "." LF) with false. cbv iota.
      rewrite (multiline_rest_of_line l _ rest Hl), buf_putc_append. reflexivity.
    + assert (match a with "."%char => String "." (String a l) | _ => String a l end
              = String a l) as ->.
      { destruct a as [[] [] [] [] [] [] [] []]; try reflexivity. now contradict Hdot. }
      rewrite !append_assoc, !append_cons, append_nil_l.
      cbn [Lexer.multiline]. apply Ascii.eqb_neq in Hdot. rewrite Hdot, andb_false_r.
      rewrite Ascii.eqb_sym, Ha.
      rewrite (multiline_rest_of_line l _ rest Hl), buf_putc_append. reflexivity.
Qed.

(** X20: in MULTILINE, at the beginning of a line, a text written line by
    line with a dot before every line that starts with a dot, and closed
    by a line that holds a dot only, is read back as it was: the buffer
    receives the lines with their line feeds, without the added dots and
    without the closing line, whether that line ends with LF or with CR
    LF. *)
Theorem multiline_reads_stuffed ls : forall buf rest,
  Forall (fun l => Lexer.has_char LF l = false) ls ->
  Lexer.multiline true
    (Lexer.concat_map Lexer.stuffed ls +:+ String "." (String LF rest)) buf =
    Lexer.Token Lexer.STRING (Lexer.Sval (buf +:+ Lexer.concat_map Lexer.unstuffed ls))
      Lexer.INITIAL rest /\
  Lexer.multiline true
    (Lexer.concat_map Lexer.stuffed ls +:+ String "." (String CR (String LF rest))) buf =
    Lexer.Token Lexer.STRING (Lexer.Sval (buf +:+ Lexer.concat_map Lexer.unstuffed ls))
      Lexer.INITIAL rest.
Proof.
  induction ls as [|l ls IH]; intros buf rest Hls.
  - cbn [Lexer.concat_map]. rewrite append_nil_r. split; reflexivity.
  - apply Forall_cons in Hls as [Hl Hls]. cbn [Lexer.concat_map].
    rewrite !append_assoc, !(multiline_line l buf _ Hl).
    destruct (IH (buf +:+ Lexer.unstuffed l) rest Hls) as [-> ->].
    rewrite append_assoc. split; reflexivity.
Qed.

(** ** Time zones *)

Lemma to_quote_text text rest :
  Lexer.has_char Lexer.DQUOTE text = false ->
  Lexer.to_quote (text +:+ String Lexer.DQUOTE rest) = Some (text, rest).
Proof.
  induction text as [|a text IH]; intros Hq; [reflexivity|].
  cbn [Lexer.has_char] in Hq. apply orb_false_iff in Hq as [Ha Hq].
  rewrite append_cons. cbn [Lexer.to_quote]. rewrite Ascii.eqb_sym, Ha, (IH Hq).
  reflexivity.
Qed.

Lemma zone_table_holds : Lexer.zone_table = true.
Proof. vm_compute. reflexivity. Qed.

Lemma zone_text_spec s h m :
  s = "-"%char \/ s = "|"%char \/ s = "+"%char -> 0 <= h <= 19 -> 0 <= m <= 59 ->
  Lexer.timezone (Lexer.zone_text s h m) = true /\
  Lexer.has_char Lexer.DQUOTE (Lexer.zone_text s h m) = false /\
  Lexer.timezone_nval (Lexer.zone_text s h m) = Lexer.zone_sign s * (60 * h + m).
Proof.
  intros Hs Hh Hm. pose proof zone_table_holds as T. unfold Lexer.zone_table in T.
  rewrite forallb_forall in T.
  assert (In s ["-"; "|"; "+"]%char) as Hin by (simpl; intuition).
  specialize (T s Hin). rewrite forallb_forall in T.
  assert (In h (map Z.of_nat (seq 0 20))) as Hinh.
  { apply in_map_iff. exists (Z.to_nat h). split; [lia|]. apply in_seq. lia. }
  specialize (T h Hinh). rewrite forallb_forall in T.
  assert (In m (map Z.of_nat (seq 0 60))) as Hinm.
  { apply in_map_iff. exists (Z.to_nat m). split; [lia|]. apply in_seq. lia. }
  specialize (T m Hinm).
  apply andb_true_iff in T as [T Hv]. apply andb_true_iff in T as [Ht Hq].
  apply negb_true_iff in Hq. apply Z.eqb_eq in Hv. auto.
Qed.

(** White space before a token of QTIMEZONE is passed over. *)
Lemma qtimezone_blank ws : forall s,
  Lexer.all_blank ws = true -> Lexer.qtimezone (ws +:+ s) = Lexer.qtimezone s.
Proof.
  induction ws as [|a ws IH]; intros s Hws; [reflexivity|].
  cbn [Lexer.all_blank] in Hws. apply andb_true_iff in Hws as [Ha Hws].
  rewrite append_cons. cbn [Lexer.qtimezone]. rewrite Ha. exact (IH s Hws).
Qed.

(** X21: in QTIMEZONE a quoted time zone of [h] hours, up to 19, and [m]
    minutes, after any white space, is returned as the token TIMEZONE with
    the minutes [60 * h + m], negated after [-] and as they are after [+];
    the character [|], which the class of the sign also holds, is taken
    as well and gives [0]. *)
Theorem timezone_minutes ws s h m rest :
  Lexer.all_blank ws = true ->
  s = "-"%char \/ s = "|"%char \/ s = "+"%char -> 0 <= h <= 19 -> 0 <= m <= 59 ->
  Lexer.qtimezone
    (ws +:+ String Lexer.DQUOTE (Lexer.zone_text s h m +:+ String Lexer.DQUOTE rest)) =
    Lexer.Token Lexer.TIMEZONE (Lexer.Nval (Lexer.zone_sign s * (60 * h + m)))
      Lexer.INITIAL rest.
Proof.
  intros Hws Hs Hh Hm. destruct (zone_text_spec s h m Hs Hh Hm) as (Ht & Hq & Hv).
  rewrite (qtimezone_blank ws _ Hws).
  cbn [Lexer.qtimezone]. change (Lexer.is_blank Lexer.DQUOTE) with false.
  change (Ascii.eqb Lexer.DQUOTE Lexer.DQUOTE) with true. cbv iota.
  rewrite (to_quote_text _ rest Hq), Ht, Hv. reflexivity.
Qed.

(** ** Runs of the lexer *)

(** The text [5K]. *)
Lemma tonum_scales_witness :
  0 <= 5 <= Lexer.ULLONG_MAX /\
  Lexer.isdigit (Lexer.deref "K") = false /\
  0 <> Lexer.ERANGE /\
  Lexer.tonum (Lexer.numeral 5 +:+ "K") 0 =
    (Lexer.wrap64 (5 * Lexer.unit_factor (Lexer.deref "K")), 0).
Proof.
  assert (0 <= 5 <= Lexer.ULLONG_MAX) as Hn by (vm_compute; split; discriminate).
  assert (0 <> Lexer.ERANGE) as He by discriminate.
  split; [exact Hn|]. split; [reflexivity|]. split; [exact He|].
  exact (tonum_scales 5 "K" 0 Hn eq_refl He).
Defined.


(** The text [18446744073709551616K], the numeral of [2^64]. *)
Lemma number_saturates_witness :
  Lexer.ULLONG_MAX < 2 ^ 64 /\
  Lexer.isdigit (Lexer.deref "K") = false /\
  Lexer.number (Lexer.numeral (2 ^ 64) +:+ "K") 0 =
    {| Lexer.number_error :=
         Some ("number too large " +:+ Lexer.numeral (2 ^ 64) +:+ "K");
       Lexer.number_nval := Lexer.ULLONG_MAX;
       Lexer.number_token := Lexer.NUMBER;
       Lexer.number_errno := Lexer.ERANGE |}.
Proof.
  assert (Lexer.ULLONG_MAX < 2 ^ 64) as Hmax by reflexivity.
  split; [exact Hmax|]. split; [reflexivity|].
  exact (number_saturates (2 ^ 64) "K" 0 Hmax eq_refl).
Defined.

(** The text [1K] after a conversion that has set [errno]. *)
Lemma tonum_stale_errno_witness :
  0 <= 1 <= Lexer.ULLONG_MAX /\
  Lexer.isdigit (Lexer.deref "K") = false /\
  Lexer.tonum (Lexer.numeral 1 +:+ "K") Lexer.ERANGE = (1, Lexer.ERANGE).
Proof.
  assert (0 <= 1 <= Lexer.ULLONG_MAX) as Hn by (vm_compute; split; discriminate).
  split; [exact Hn|]. split; [reflexivity|].
  exact (tonum_stale_errno 1 "K" Hn eq_refl).
Defined.

(** A string that ends with a backslash and is not closed. *)
Lemma qstring_without_quote_witness :
  Lexer.has_char Lexer.DQUOTE "fileinto \" = false /\
  Lexer.qstring "fileinto \" EmptyString =
    Lexer.Terminated "unexpected end of file in string" Lexer.INITIAL.
Proof.
  split; [reflexivity|].
  exact (qstring_without_quote "fileinto \" EmptyString eq_refl).
Defined.

(** A text of two lines, the first of which starts with a dot. *)
Lemma multiline_reads_stuffed_witness :
  Forall (fun l => Lexer.has_char LF l = false) [".signature"; "regards"] /\
  Lexer.multiline true
    (Lexer.concat_map Lexer.stuffed [".signature"; "regards"]
       +:+ String "." (String LF ";")) EmptyString =
    Lexer.Token Lexer.STRING
      (Lexer.Sval (EmptyString +:+ Lexer.concat_map Lexer.unstuffed [".signature"; "regards"]))
      Lexer.INITIAL ";".
Proof.
  assert (Forall (fun l => Lexer.has_char LF l = false) [".signature"; "regards"]) as Hls
    by (repeat constructor).
  split; [exact Hls|].
  exact (proj1 (multiline_reads_stuffed [".signature"; "regards"] EmptyString ";" Hls)).
Defined.

(** The time zone [-0530] after a blank. *)
Lemma timezone_minutes_witness :
  Lexer.all_blank " " = true /\
  0 <= 5 <= 19 /\ 0 <= 30 <= 59 /\
  Lexer.qtimezone
    (" " +:+ String Lexer.DQUOTE (Lexer.zone_text "-" 5 30 +:+ String Lexer.DQUOTE ";")) =
    Lexer.Token Lexer.TIMEZONE (Lexer.Nval (Lexer.zone_sign "-" * (60 * 5 + 30)))
      Lexer.INITIAL ";".
Proof.
  assert (0 <= 5 <= 19) as Hh by (split; discriminate).
  assert (0 <= 30 <= 59) as Hm by (split; discriminate).
  split; [reflexivity|]. split; [exact Hh|]. split; [exact Hm|].
  exact (timezone_minutes " " "-" 5 30 ";" eq_refl (or_introl eq_refl) Hh Hm).
Defined.
